(** * TattooCarousel: slot math, drag/momentum engine, theme transition

    A shallow embedding of the algorithmic core of
    [src/app/components/TattooCarousel.tsx], of the card operations of the
    configuration page and of the save middleware of [vite.config.ts].

    Conventions.
    - A JavaScript [number] that holds an index or a count is a [Z].
    - The hook [useDragCarousel] is embedded twice. In the first embedding
      a [number] that holds pixels, milliseconds or a velocity is a [Q]:
      arithmetic is exact, the rounding of IEEE doubles and the values NaN
      and Infinity are outside that embedding. It carries the properties
      that hold however a sum or a product is rounded: invariants, bounds
      with slack, the decay of the velocity. In the second, the module
      [F64], such a [number] is the IEEE 754 double it is in the program,
      with the operations of the kernel's [PrimFloat]. It carries the
      properties that say on which side of a threshold a computed value
      falls: the 5 pixels of the dead zone, the velocity 2, 25% and 35% of
      [sideOffset], the velocity 0.4.
    - [%] on numbers is the truncated remainder, [Z.rem].
    - React state ([useState]) and refs ([useRef]) are fields of one record;
      an event handler is a function on that record, followed by the
      component's effects ([commit]).
    - [setTimeout] and [requestAnimationFrame] callbacks are data held in
      the state; the environment decides when they run. *)

From Stdlib Require Import ZArith QArith Qabs Qround List Bool Lia Lqa String.
From Stdlib Require Import Ascii.
From Stdlib Require Import Floats.
From Stdlib Require Decimal DecimalNat DecimalString DecimalFacts.
Import ListNotations.

Open Scope Z_scope.
#[local] Set Warnings "-inexact-float".

(** ** JavaScript numbers *)

Module Js.

(** [x > y] and [x < y] on real-valued numbers. *)
Definition gt (x y : Q) : bool := negb (Qle_bool x y).
Definition lt (x y : Q) : bool := negb (Qle_bool y x).

(** [Math.round]: the nearest integer, a tie going up. *)
Definition Math_round (x : Q) : Z := Qfloor (x + (1 # 2))%Q.

(** [Math.abs]. *)
Definition Math_abs (x : Q) : Q := Qabs x.

(** What a render gives: the value; the [TypeError] of reading a property
    of [undefined]; or the error React throws for an element whose type is
    [undefined] ("Element type is invalid"). *)
Inductive result (A : Type) : Type :=
| Ok (a : A)
| TypeError
| InvalidElement.
Arguments Ok {A} a.
Arguments TypeError {A}.
Arguments InvalidElement {A}.

End Js.

(** ** Breakpoints and layout *)

Inductive Breakpoint : Type := mobile | tablet | desktop.

(** [getBreakpoint] inside [useBreakpoint], on a window of inner width [w]. *)
Definition getBreakpoint (w : Q) : Breakpoint :=
  if Js.lt w 640 then mobile
  else if Js.lt w 1180 then tablet
  else desktop.

Record LayoutConfig : Type := mkLayout {
  cardW : Q; cardH : Q; sideOffset : Q; farOffset : Q;
  sideScale : Q; activeScale : Q; hiddenScale : Q
}.

Definition useLayoutConfig (bp : Breakpoint) : LayoutConfig :=
  match bp with
  | mobile => mkLayout 240 300 220 400 0.45 1 0.35
  | tablet => mkLayout 300 370 270 500 0.5 1 0.38
  | desktop => mkLayout 370 440 340 640 0.514 1 0.4
  end.

(** ** Slot math (circular) *)

(** [getSlot]: [N / 2] is the exact half, so the two comparisons are made
    on rationals. *)
Definition getSlot (i active N : Z) : Z :=
  let d := i - active in
  let d := if Js.gt (inject_Z d) (inject_Z N / 2)%Q then d - N else d in
  let d := if Js.lt (inject_Z d) (- inject_Z N / 2)%Q then d + N else d in
  d.

Record SlotProps : Type := mkSlotProps {
  sp_x : Q; sp_scale : Q; sp_opacity : Q; sp_blur : Q; sp_z : Z
}.

Definition slotProps (slot : Z) (layout : LayoutConfig) : SlotProps :=
  if slot =? 0 then mkSlotProps 0 (activeScale layout) 1 0 20
  else if slot =? -1 then
    mkSlotProps (- sideOffset layout) (sideScale layout) 0.4 0.5 10
  else if slot =? 1 then
    mkSlotProps (sideOffset layout) (sideScale layout) 0.4 0.5 10
  else
    let dir := if slot <? 0 then (-1)%Q else 1%Q in
    mkSlotProps (dir * farOffset layout)%Q (hiddenScale layout) 0 2 1.

(** The two integer halves of the spec's interval. *)
Definition floor_half (N : Z) : Z := N / 2.
Definition ceil_half (N : Z) : Z := (N + 1) / 2.

(** ** Items *)

Record CardItem : Type := mkCardItem {
  id : Z; title : string; description : string;
  cta : string; videoId : string; bg : string
}.

(** [const N = items.length > 0 ? items.length : 1]. *)
Definition itemCount (items : list CardItem) : Z :=
  if Z.of_nat (List.length items) >? 0 then Z.of_nat (List.length items) else 1.

(** ** Carousel state *)

(** The state of [TattooCarousel] and of its [useDragCarousel] hook.
    [rafId] holds the callback that is scheduled with
    [requestAnimationFrame], as the values of the two variables [vel] and
    [offset] its closure owns; [None] when no callback is scheduled (an id
    whose callback has already run cancels nothing). *)
Record Carousel : Type := mkCarousel {
  activeIndex : Z;
  dragX : Q;
  dragXRef : Q;
  dragging : bool;
  captured : bool;
  startX : Q;
  lastX : Q;
  lastTime : Q;
  velocity : Q;
  rafId : option (Q * Q)
}.

Definition set_activeIndex (v : Z) (s : Carousel) : Carousel :=
  mkCarousel v (dragX s) (dragXRef s) (dragging s) (captured s)
             (startX s) (lastX s) (lastTime s) (velocity s) (rafId s).
Definition setDragX (v : Q) (s : Carousel) : Carousel :=
  mkCarousel (activeIndex s) v (dragXRef s) (dragging s) (captured s)
             (startX s) (lastX s) (lastTime s) (velocity s) (rafId s).
Definition set_dragXRef (v : Q) (s : Carousel) : Carousel :=
  mkCarousel (activeIndex s) (dragX s) v (dragging s) (captured s)
             (startX s) (lastX s) (lastTime s) (velocity s) (rafId s).
Definition set_dragging (v : bool) (s : Carousel) : Carousel :=
  mkCarousel (activeIndex s) (dragX s) (dragXRef s) v (captured s)
             (startX s) (lastX s) (lastTime s) (velocity s) (rafId s).
Definition set_captured (v : bool) (s : Carousel) : Carousel :=
  mkCarousel (activeIndex s) (dragX s) (dragXRef s) (dragging s) v
             (startX s) (lastX s) (lastTime s) (velocity s) (rafId s).
Definition set_startX (v : Q) (s : Carousel) : Carousel :=
  mkCarousel (activeIndex s) (dragX s) (dragXRef s) (dragging s) (captured s)
             v (lastX s) (lastTime s) (velocity s) (rafId s).
Definition set_lastX (v : Q) (s : Carousel) : Carousel :=
  mkCarousel (activeIndex s) (dragX s) (dragXRef s) (dragging s) (captured s)
             (startX s) v (lastTime s) (velocity s) (rafId s).
Definition set_lastTime (v : Q) (s : Carousel) : Carousel :=
  mkCarousel (activeIndex s) (dragX s) (dragXRef s) (dragging s) (captured s)
             (startX s) (lastX s) v (velocity s) (rafId s).
Definition set_velocity (v : Q) (s : Carousel) : Carousel :=
  mkCarousel (activeIndex s) (dragX s) (dragXRef s) (dragging s) (captured s)
             (startX s) (lastX s) (lastTime s) v (rafId s).
Definition set_rafId (v : option (Q * Q)) (s : Carousel) : Carousel :=
  mkCarousel (activeIndex s) (dragX s) (dragXRef s) (dragging s) (captured s)
             (startX s) (lastX s) (lastTime s) (velocity s) v.

(** [useState(0)], [useRef(0)], [useRef(false)]. *)
Definition initial : Carousel :=
  mkCarousel 0 0 0 false false 0 0 0 0 None.

(** What the handlers read of a pointer event: [e.clientX], [e.button],
    whether [e.target.closest("button, a")] finds an element, and the
    value [performance.now()] returns while the handler runs. *)
Record PointerEvent : Type := mkPointerEvent {
  clientX : Q;
  button : Z;
  onControl : bool;
  now : Q
}.

(** ** The drag and momentum engine: [useDragCarousel] *)

Section DragCarousel.

(** The hook in exact arithmetic; the module [F64] below has it on
    doubles. Its parameters [sideOffset] and [N]. *)
Variable side : Q.
Variable N : Z.

Definition friction : Q := 0.93.

(** [next = ((next % N) + N) % N]. *)
Definition wrap (next : Z) : Z := Z.rem (Z.rem next N + N) N.

Definition cancelMomentum (s : Carousel) : Carousel := set_rafId None s.

(** [startMomentum]: the closure starts from [initialVel] and from
    [dragXRef.current], and its first callback is scheduled. *)
Definition startMomentum (initialVel : Q) (s : Carousel) : Carousel :=
  set_rafId (Some (initialVel, dragXRef s)) s.

(** One run of [tick], the closure's variables being [vel] and [offset]. *)
Definition tick (vel offset : Q) (s : Carousel) : Carousel :=
  let vel := (vel * friction)%Q in
  let offset := (offset + vel)%Q in
  if Js.gt (Js.Math_abs offset) (side * 0.35)%Q then
    let steps := Js.Math_round (- offset / side)%Q in
    let s := if negb (steps =? 0)
             then set_activeIndex (wrap (activeIndex s + steps)) s
             else s in
    set_rafId None (set_velocity 0 (setDragX 0 s))
  else if Js.lt (Js.Math_abs vel) 0.4 then
    let s := if Js.gt (Js.Math_abs offset) (side * 0.25)%Q
             then let dir := if Js.lt offset 0 then 1 else -1 in
                  set_activeIndex (wrap (activeIndex s + dir)) s
             else s in
    set_rafId None (setDragX 0 s)
  else
    set_rafId (Some (vel, offset)) (setDragX offset s).

Definition handlePointerDown (e : PointerEvent) (s : Carousel) : Carousel :=
  if onControl e then s
  else if negb (button e =? 0) then s
  else
    let s := cancelMomentum s in
    let s := set_captured false (set_dragging true s) in
    let s := set_lastX (clientX e) (set_startX (clientX e) s) in
    set_velocity 0 (set_lastTime (now e) s).

Definition handlePointerMove (e : PointerEvent) (s : Carousel) : Carousel :=
  if negb (dragging s) then s
  else
    let totalDX := (clientX e - startX s)%Q in
    let s := if negb (captured s) && Js.gt (Js.Math_abs totalDX) 5
             then set_captured true s else s in
    if negb (captured s) then s
    else
      let dt := (now e - lastTime s)%Q in
      let dx := (clientX e - lastX s)%Q in
      let s := if Js.gt dt 0 then set_velocity (dx / dt * 16)%Q s else s in
      let s := set_lastTime (now e) (set_lastX (clientX e) s) in
      setDragX totalDX s.

Definition handlePointerUp (e : PointerEvent) (s : Carousel) : Carousel :=
  if negb (dragging s) then s
  else
    let s := set_dragging false s in
    if negb (captured s) then setDragX 0 s
    else
      let totalDX := (clientX e - startX s)%Q in
      let vel := velocity s in
      if Js.gt (Js.Math_abs vel) 2 then startMomentum vel s
      else
        let s := if Js.gt (Js.Math_abs totalDX) (side * 0.25)%Q
                 then let dir := if Js.lt totalDX 0 then 1 else -1 in
                      set_activeIndex (wrap (activeIndex s + dir)) s
                 else s in
        setDragX 0 s.

(** [next] and [prev] of [TattooCarousel]. *)
Definition next (s : Carousel) : Carousel :=
  set_activeIndex (Z.rem (activeIndex s + 1) N) s.
Definition prev (s : Carousel) : Carousel :=
  set_activeIndex (Z.rem (activeIndex s - 1 + N) N) s.

(** The browser runs the scheduled animation frame callback, if any. *)
Definition animationFrame (s : Carousel) : Carousel :=
  match rafId s with
  | Some (vel, offset) => tick vel offset s
  | None => s
  end.

(** The hook's effects, run after a handler took the state from [old] to
    [s]: [setDragX(0); cancelMomentum()] when [activeIndex] changed, and
    [dragXRef.current = dragX]. *)
Definition commit (old s : Carousel) : Carousel :=
  let s := if activeIndex s =? activeIndex old then s
           else cancelMomentum (setDragX 0 s) in
  set_dragXRef (dragX s) s.

(** What the environment can do to the mounted carousel. *)
Inductive Event : Type :=
| PointerDown (e : PointerEvent)
| PointerMove (e : PointerEvent)
| PointerUp (e : PointerEvent)      (* also bound to [onPointerCancel] *)
| AnimationFrame
| Next                              (* right arrow, ArrowRight, right card *)
| Prev                              (* left arrow, ArrowLeft, left card *)
| Paginate (i : nat).               (* the dot rendered for [items[i]] *)

Definition handle (ev : Event) (s : Carousel) : Carousel :=
  match ev with
  | PointerDown e => handlePointerDown e s
  | PointerMove e => handlePointerMove e s
  | PointerUp e => handlePointerUp e s
  | AnimationFrame => animationFrame s
  | Next => next s
  | Prev => prev s
  | Paginate i => set_activeIndex (Z.of_nat i) s
  end.

Definition step (s : Carousel) (ev : Event) : Carousel :=
  commit s (handle ev s).

Definition run (s : Carousel) (evs : list Event) : Carousel :=
  fold_left step evs s.

(** [k] animation frames in a row. *)
Definition frames (k : nat) (s : Carousel) : Carousel :=
  run s (repeat AnimationFrame k).

(** The coasting recurrence as the spec words it: the velocity after [k]
    multiplications by the friction, and the running offset after adding
    each of them. *)
Fixpoint coastVel (v : Q) (k : nat) : Q :=
  match k with
  | O => v
  | S k' => (coastVel v k' * friction)%Q
  end.

Fixpoint coastOffset (v o : Q) (k : nat) : Q :=
  match k with
  | O => o
  | S k' => (coastOffset v o k' + coastVel v (S k'))%Q
  end.


End DragCarousel.

(** ** The carousel controller: [TattooCarousel] *)

(** The hook as [TattooCarousel] calls it:
    [useDragCarousel(activeIndex, setActiveIndex, layout.sideOffset, N)]. *)
Definition carouselStep (items : list CardItem) (bp : Breakpoint)
  : Carousel -> Event -> Carousel :=
  step (sideOffset (useLayoutConfig bp)) (itemCount items).

Definition carouselRun (items : list CardItem) (bp : Breakpoint)
  : Carousel -> list Event -> Carousel :=
  run (sideOffset (useLayoutConfig bp)) (itemCount items).

(** A pagination dot exists for each item and for nothing else. *)
Definition enabled (items : list CardItem) (ev : Event) : Prop :=
  match ev with
  | Paginate i => (i < List.length items)%nat
  | _ => True
  end.

(** The states the mounted carousel can be in. *)
Definition reachable (items : list CardItem) (bp : Breakpoint)
  (s : Carousel) : Prop :=
  exists evs, Forall (enabled items) evs /\ s = carouselRun items bp initial evs.

(** A pointer gesture: the pointer goes down on the carousel surface, moves
    and goes up. *)
Definition gesture (down : PointerEvent) (moves : list PointerEvent)
  (up : PointerEvent) : list Event :=
  PointerDown down :: map PointerMove moves ++ [PointerUp up].

(** The pointer-down that starts a drag: primary button, not on a button
    or a link. *)
Definition startsDrag (e : PointerEvent) : Prop :=
  onControl e = false /\ button e = 0.

(** The horizontal displacement of event [e] from the pointer-down. *)
Definition displacement (down e : PointerEvent) : Q :=
  (clientX e - clientX down)%Q.

(** ** The render path of [TattooCarousel], as far as it reads the items *)

Record View : Type := mkView {
  cards : list (Z * Q);      (* per item: its slot and its animated x *)
  dots : list bool;          (* per item: is its pagination dot active *)
  background : string        (* the background layer's image *)
}.

Definition indexed (items : list CardItem) : list (Z * CardItem) :=
  combine (map Z.of_nat (seq 0 (List.length items))) items.

(** [items.map((item, i) => <CarouselCard slot={getSlot(i, activeIndex, N)} />)],
    the card animating to [sp.x + dragX]. *)
Definition renderCards (items : list CardItem) (bp : Breakpoint)
  (s : Carousel) : list (Z * Q) :=
  map (fun p : Z * CardItem =>
         let slot := getSlot (fst p) (activeIndex s) (itemCount items) in
         (slot, (sp_x (slotProps slot (useLayoutConfig bp)) + dragX s)%Q))
      (indexed items).

(** [items.map((item, i) => ... i === activeIndex ...)]. *)
Definition renderDots (items : list CardItem) (s : Carousel) : list bool :=
  map (fun p : Z * CardItem => fst p =? activeIndex s) (indexed items).

(** [items[activeIndex]]: [undefined] outside the array. *)
Definition itemAt (items : list CardItem) (i : Z) : option CardItem :=
  if i <? 0 then None else nth_error items (Z.to_nat i).

(** [`url(${items[activeIndex].bg})`] of the background layer. *)
Definition backgroundImage (items : list CardItem) (s : Carousel)
  : Js.result string :=
  match itemAt items (activeIndex s) with
  | Some item => Js.Ok ("url(" ++ bg item ++ ")")%string
  | None => Js.TypeError
  end.

(** [const geoIcons = [GeoIconQuote, GeoIconVoice, GeoIconArtist,
    GeoIconClient]]: the four icon components, by name. *)
Definition geoIcons : list string :=
  ["GeoIconQuote"; "GeoIconVoice"; "GeoIconArtist"; "GeoIconClient"]%string.

(** [geoIcons[index]] in [CarouselCard]: [undefined] outside the array. *)
Definition geoIcon (index : Z) : option string :=
  if index <? 0 then None else nth_error geoIcons (Z.to_nat index).

(** [CarouselCard] renders [<GeoIcon active={isActive} />] whatever its
    slot: the card can be rendered when [geoIcons[index]] is a component. *)
Definition cardRenders (index : Z) : bool :=
  match geoIcon index with
  | Some _ => true
  | None => false
  end.

(** One render of [TattooCarousel] and of the cards it returns. Its own
    body reads [items[activeIndex].bg]; the cards are rendered after it. *)
Definition render (items : list CardItem) (bp : Breakpoint) (s : Carousel)
  : Js.result View :=
  match backgroundImage items s with
  | Js.Ok image =>
      if forallb (fun p : Z * CardItem => cardRenders (fst p)) (indexed items)
      then Js.Ok (mkView (renderCards items bp s) (renderDots items s) image)
      else Js.InvalidElement
  | Js.TypeError => Js.TypeError
  | Js.InvalidElement => Js.InvalidElement
  end.

(** ** The theme transition overlay: [ThemeTransitionOverlay] *)

Inductive Theme : Type := light | dark.

(** One overlay instance. [clock] counts the milliseconds since the
    trigger. A timer is the time at which its callback is due. [flips]
    and [completions] record when [setTheme(targetTheme)] and
    [onComplete()] were called. *)
Record Overlay : Type := mkOverlay {
  clock : Z;
  mounted : bool;
  targetTheme : Theme;
  theme : Theme;
  hasFlipped : bool;
  flipTimer : option Z;
  cleanupTimer : option Z;
  flips : list Z;
  completions : list Z
}.

(** The effect's body: the two [setTimeout] calls. *)
Definition runEffect (o : Overlay) : Overlay :=
  mkOverlay (clock o) (mounted o) (targetTheme o) (theme o) (hasFlipped o)
            (Some (clock o + 350)) (Some (clock o + 1600))
            (flips o) (completions o).

(** The effect's cleanup: the two [clearTimeout] calls. *)
Definition cleanupEffect (o : Overlay) : Overlay :=
  mkOverlay (clock o) (mounted o) (targetTheme o) (theme o) (hasFlipped o)
            None None (flips o) (completions o).

(** [triggerThemeSwitch] followed by the overlay's first render: the
    target is the mode that is not the current one. *)
Definition trigger (current : Theme) : Overlay :=
  let target := match current with dark => light | light => dark end in
  runEffect (mkOverlay 0 true target current false None None [] []).

(** [TattooCarousel] renders again while the overlay is mounted. The
    overlay is handed [onComplete={() => setThemeTransition(null)}], a new
    closure, and [onComplete] is a dependency of the effect: the effect is
    cleaned up and run again. *)
Definition rerender (o : Overlay) : Overlay :=
  if mounted o then runEffect (cleanupEffect o) else o.

Definition theme_eqb (a b : Theme) : bool :=
  match a, b with
  | light, light | dark, dark => true
  | _, _ => false
  end.

(** The flip timer's callback, run at time [t]. When [setTheme(targetTheme)]
    changes the mode, [TattooCarousel], which reads [resolvedTheme] from
    [useTheme()], renders again: the effect is cleaned up and run again at
    [t], as for any other render of the parent. *)
Definition fireFlip (t : Z) (o : Overlay) : Overlay :=
  if negb (hasFlipped o)
  then
    let o' := mkOverlay t (mounted o) (targetTheme o) (targetTheme o) true
                        None (cleanupTimer o) (flips o ++ [t]) (completions o) in
    if theme_eqb (theme o) (targetTheme o) then o' else rerender o'
  else mkOverlay t (mounted o) (targetTheme o) (theme o) (hasFlipped o)
                 None (cleanupTimer o) (flips o) (completions o).

(** The cleanup timer's callback, run at time [t]: [onComplete] sets the
    transition state to [null], which unmounts the overlay. *)
Definition fireComplete (t : Z) (o : Overlay) : Overlay :=
  mkOverlay t false (targetTheme o) (theme o) (hasFlipped o)
            None None (flips o) (completions o ++ [t]).

Definition unmount (o : Overlay) : Overlay :=
  cleanupEffect
    (mkOverlay (clock o) false (targetTheme o) (theme o) (hasFlipped o)
               (flipTimer o) (cleanupTimer o) (flips o) (completions o)).

(** The flip timer runs if it is due by time [t]. *)
Definition fireDueFlip (t : Z) (o : Overlay) : Overlay :=
  match flipTimer o with
  | Some due => if due <=? t then fireFlip due o else o
  | None => o
  end.

(** The cleanup timer runs if it is due by time [t]. *)
Definition fireDueComplete (t : Z) (o : Overlay) : Overlay :=
  match cleanupTimer o with
  | Some due => if due <=? t then fireComplete due o else o
  | None => o
  end.

(** [ms] milliseconds pass and the timers that fall due run in the order
    of their due times: the flip timer (set 350ms after the effect ran);
    then the flip timer that the render caused by the flip has set, which
    finds [hasFlipped] set and sets no other; then the cleanup timer
    (1600ms after the effect ran last). *)
Definition elapse (ms : nat) (o : Overlay) : Overlay :=
  let t := clock o + Z.of_nat ms in
  let o := fireDueFlip t o in
  let o := fireDueFlip t o in
  let o := fireDueComplete t o in
  mkOverlay t (mounted o) (targetTheme o) (theme o) (hasFlipped o)
            (flipTimer o) (cleanupTimer o) (flips o) (completions o).

Inductive OverlayEvent : Type :=
| Elapse (ms : nat)
| Rerender
| Unmount.

Definition overlayStep (o : Overlay) (ev : OverlayEvent) : Overlay :=
  match ev with
  | Elapse ms => elapse ms o
  | Rerender => rerender o
  | Unmount => unmount o
  end.

Definition overlayRun (o : Overlay) (evs : list OverlayEvent) : Overlay :=
  fold_left overlayStep evs o.

(** ** Predicates on events and states *)

(** An event that sets the index directly sets it to a rendered dot. *)
Definition indexInRange (N : Z) (ev : Event) : Prop :=
  match ev with
  | Paginate i => Z.of_nat i < N
  | _ => True
  end.

(** The ref mirrors the state, and no animation frame is pending while
    the pointer is down. *)
Definition settled (s : Carousel) : Prop :=
  dragXRef s = dragX s /\ (dragging s = true -> rafId s = None).

(** The pointer went down at [x0] while the index was [a], and no move
    has left the deadzone since. *)
Definition pressed (x0 : Q) (a : Z) (s : Carousel) : Prop :=
  dragging s = true /\ captured s = false /\ startX s = x0 /\
  activeIndex s = a /\ rafId s = None.


(** [setTheme] has been called once if the flag is set and never if it is
    not. *)
Definition flippedOnce (o : Overlay) : Prop :=
  if hasFlipped o then List.length (flips o) = 1%nat else flips o = [].

(** ** Concrete inputs *)

(** The four cards of the default configuration ([defaultCards] of the
    configuration context), the query string of each image URL left out. *)
Definition defaultCards : list CardItem :=
  [ mkCardItem 1 "Cotizar un tatuaje"
      "Describe tu idea y recibe presupuestos de artistas verificados en minutos."
      "Comenzar" "dQw4w9WgXcQ"
      "https://images.unsplash.com/photo-1562259954-bf6c7f31bf60";
    mkCardItem 2 "Chat de voz"
      "Habla directamente con tu artista para afinar cada detalle."
      "Conectar" "dQw4w9WgXcQ"
      "https://images.unsplash.com/photo-1688039763740-9036cb5d566e";
    mkCardItem 3 "Portal de artista"
      "Gestiona tu portafolio, agenda y clientes desde un solo lugar."
      "Entrar" "dQw4w9WgXcQ"
      "https://images.unsplash.com/photo-1635182473361-1f72e7b4be83";
    mkCardItem 4 "Portal de cliente"
      "Revisa tus citas, historial y artistas favoritos en tu panel personal."
      "Mi cuenta" "dQw4w9WgXcQ"
      "https://images.unsplash.com/photo-1634803828978-24dabef75a5e" ].

(** A primary-button pointer event on the carousel surface, at horizontal
    position [x] and time [t]. *)
Definition pointerAt (x t : Q) : PointerEvent := mkPointerEvent x 0 false t.

(** ** Clicks and keys *)

(** The card's [onClick]:
    [if (slot === -1) prev(); else if (slot === 1) next();]. *)
Definition cardOnClick (N slot : Z) (s : Carousel) : Carousel :=
  if slot =? -1 then prev N s
  else if slot =? 1 then next N s
  else s.

(** A click on the card rendered for [items[i]], then the effects. *)
Definition clickCard (items : list CardItem) (i : nat) (s : Carousel)
  : Carousel :=
  let N := itemCount items in
  commit s (cardOnClick N (getSlot (Z.of_nat i) (activeIndex s) N) s).

(** The carousel together with [videoModal], the id of the video that is
    playing. *)
Record Page : Type := mkPage {
  carousel : Carousel;
  videoModal : option string
}.

(** [videoModal] as a condition: [null] and the empty string are falsy. *)
Definition truthy (v : option string) : bool :=
  match v with
  | Some id => negb (String.eqb id "")
  | None => false
  end.

(** [onPlayVideo={() => setVideoModal(item.videoId)}]. *)
Definition playVideo (item : CardItem) (p : Page) : Page :=
  mkPage (carousel p) (Some (videoId item)).

(** The carousel's [keydown] listener, after its [if (videoModal) return]. *)
Definition arrowKeys (N : Z) (key : string) (s : Carousel) : Carousel :=
  let s := if String.eqb key "ArrowLeft" then prev N s else s in
  if String.eqb key "ArrowRight" then next N s else s.

(** A key goes down: the carousel's listener runs, and the listener of
    [VideoModal], which is mounted while [videoModal] is truthy and closes
    the modal on Escape. *)
Definition keydown (N : Z) (key : string) (p : Page) : Page :=
  let open := truthy (videoModal p) in
  mkPage
    (if open then carousel p
     else commit (carousel p) (arrowKeys N key (carousel p)))
    (if open && String.eqb key "Escape" then None else videoModal p).

Definition keysdown (N : Z) (keys : list string) (p : Page) : Page :=
  fold_left (fun p key => keydown N key p) keys p.

(** ** The state of an overlay between events *)

(** The mode that is not [t]. *)
Definition otherTheme (t : Theme) : Theme :=
  match t with dark => light | light => dark end.

(** What holds of an overlay that was triggered while the theme was
    [current], after any events: the theme is flipped exactly when the
    flag says so; no flip was recorded before 350ms and no completion
    before 1600ms; a mounted overlay has not completed, its cleanup timer
    is pending and due within 1600ms, and its flip timer, when pending, is
    due 1250ms before it; an unmounted overlay has no timer. *)
Definition overlayInv (current : Theme) (o : Overlay) : Prop :=
  0 <= clock o /\
  targetTheme o = otherTheme current /\
  theme o = (if hasFlipped o then otherTheme current else current) /\
  flippedOnce o /\
  Forall (fun t => 350 <= t) (flips o) /\
  Forall (fun t => 1600 <= t) (completions o) /\
  (if mounted o
   then completions o = [] /\
        exists c, cleanupTimer o = Some c /\
                  clock o < c <= clock o + 1600 /\ 1600 <= c /\
                  match flipTimer o with
                  | Some d => d = c - 1250 /\ clock o < d
                  | None => hasFlipped o = true
                  end
   else flipTimer o = None /\ cleanupTimer o = None /\
        (List.length (completions o) <= 1)%nat /\
        (completions o <> [] -> hasFlipped o = true)).

(** No flip timer is due by time [t]. *)
Definition flipSettled (t : Z) (o : Overlay) : Prop :=
  match flipTimer o with Some d => t < d | None => True end.

(** ** The geometry of a card *)

(** [CarouselCard] is [cardW] wide, centred in the carousel ([left: 50%],
    [marginLeft: -cardW / 2]) and animated to [x: sp.x + dragX] and
    [scale: sp.scale] about its centre: its left and right edges, measured
    from the centre of the carousel. *)
Definition cardLeft (layout : LayoutConfig) (slot : Z) (dragX : Q) : Q :=
  (sp_x (slotProps slot layout) + dragX
   - cardW layout * sp_scale (slotProps slot layout) / 2)%Q.

Definition cardRight (layout : LayoutConfig) (slot : Z) (dragX : Q) : Q :=
  (sp_x (slotProps slot layout) + dragX
   + cardW layout * sp_scale (slotProps slot layout) / 2)%Q.

(** ** Strings *)

(** Strings are sequences of ASCII characters; code units above 127 are
    outside the model. *)

(** [`${n}`] for a non-negative integer [n]: its decimal digits. *)
Definition decimal (n : nat) : string :=
  DecimalString.NilEmpty.string_of_uint (Nat.to_uint n).

(** [s.startsWith(p)]. *)
Definition startsWith (p s : string) : bool := String.prefix p s.

Fixpoint skipString (n : nat) (s : string) : string :=
  match n, s with
  | S n', String _ s' => skipString n' s'
  | _, _ => s
  end.

(** [s.replace(p, '')] for a string [p]: the first occurrence of [p] is
    taken out. *)
Fixpoint removeFirst (p s : string) : string :=
  if String.prefix p s then skipString (String.length p) s
  else match s with
       | EmptyString => EmptyString
       | String c s' => String c (removeFirst p s')
       end.

(** The white space [parseInt] skips: space, tab, line feed, vertical tab,
    form feed, carriage return. *)
Definition isWhiteSpace (c : ascii) : bool :=
  let n := nat_of_ascii c in
  (n =? 32)%nat || ((9 <=? n)%nat && (n <=? 13)%nat).

Definition digitValue (c : ascii) : option nat :=
  let n := nat_of_ascii c in
  if (48 <=? n)%nat && (n <=? 57)%nat then Some (n - 48)%nat else None.

Fixpoint trimStart (s : string) : string :=
  match s with
  | String c s' => if isWhiteSpace c then trimStart s' else s
  | EmptyString => EmptyString
  end.

(** The value of the longest prefix of decimal digits, [None] when there
    is no digit. *)
Fixpoint parseDigits (s : string) (acc : option nat) : option nat :=
  match s with
  | String c s' =>
      match digitValue c with
      | Some d =>
          parseDigits s' (Some (10 * match acc with Some a => a | None => 0 end
                                + d)%nat)
      | None => acc
      end
  | EmptyString => acc
  end.

(** [parseInt(s, 10)], [None] for [NaN]: leading white space, a sign, then
    decimal digits up to the first character that is not one. *)
Definition parseInt (s : string) : option Z :=
  let s := trimStart s in
  let '(sign, digits) :=
    match s with
    | String "-"%char s' => (-1, s')
    | String "+"%char s' => (1, s')
    | _ => (1, s)
    end in
  match parseDigits digits None with
  | Some n => Some (sign * Z.of_nat n)
  | None => None
  end.

(** ** The site configuration *)

Module Config.

Record Link : Type := mkLink { text : string; url : string }.

Record SiteConfig : Type := mkSiteConfig {
  logoImg : string;
  navTitle : string;
  menuLinks : list Link;
  heroTitle : string;
  heroSubtitle : string;
  heroText : string;
  pruebameText : string;
  pruebameUrl : string;
  cards : list CardItem;
  footerText : string;
  footerLinks : list Link
}.

Definition set_logoImg (v : string) (c : SiteConfig) : SiteConfig :=
  mkSiteConfig v (navTitle c) (menuLinks c) (heroTitle c) (heroSubtitle c)
    (heroText c) (pruebameText c) (pruebameUrl c) (cards c) (footerText c)
    (footerLinks c).

Definition set_cards (v : list CardItem) (c : SiteConfig) : SiteConfig :=
  mkSiteConfig (logoImg c) (navTitle c) (menuLinks c) (heroTitle c)
    (heroSubtitle c) (heroText c) (pruebameText c) (pruebameUrl c) v
    (footerText c) (footerLinks c).

End Config.

(** A JavaScript object whose values are strings, its keys in insertion
    order (none of the keys used here is an array index). *)
Definition Obj : Type := list (string * string).

(** [delete o[k]]. *)
Definition objDelete (k : string) (o : Obj) : Obj :=
  filter (fun kv => negb (String.eqb (fst kv) k)) o.

(** [o[k]]. *)
Definition objGet (k : string) (o : Obj) : option string :=
  match find (fun kv => String.eqb (fst kv) k) o with
  | Some kv => Some (snd kv)
  | None => None
  end.

(** ** The configuration page: cards *)

(** The key under which the page keeps the image picked for card [idx]:
    [`card_bg_${idx}`]. *)
Definition cardBgKey (idx : nat) : string := ("card_bg_" ++ decimal idx)%string.

(** The state of [ConfigPage] that the card buttons change. *)
Record PageState : Type := mkPageState {
  local : Config.SiteConfig;
  pendingImages : Obj
}.

(** The card [addCard] appends, [now] being [Date.now()]. *)
Definition newCard (now : Z) : CardItem :=
  mkCardItem now "Nuevo Título" "Descripción de este nuevo módulo."
    "Botón" "dQw4w9WgXcQ"
    "https://images.unsplash.com/photo-1562259954-bf6c7f31bf60?crop=entropy&cs=tinysrgb&fit=max&fm=jpg&ixid=M3w3Nzg4Nzd8MHwxfHNlYXJjaHwxfHxtaW5pbWFsaXN0JTIwdGF0dG9vJTIwcGFybG9yJTIwaW50ZXJpb3J8ZW58MXx8fHwxNzcxNjU1OTAyfDA&ixlib=rb-4.1.0&q=80&w=1080&utm_source=figma&utm_medium=referral".

Definition addCard (now : Z) (st : PageState) : PageState :=
  mkPageState
    (Config.set_cards (Config.cards (local st) ++ [newCard now]) (local st))
    (pendingImages st).

(** [cards.filter((_, i) => i !== index)]. *)
Definition filterOutIndex (index : nat) (cards : list CardItem)
  : list CardItem :=
  map snd (filter (fun p => negb (fst p =? Z.of_nat index)) (indexed cards)).

Definition removeCard (index : nat) (st : PageState) : PageState :=
  mkPageState
    (Config.set_cards (filterOutIndex index (Config.cards (local st)))
                      (local st))
    (objDelete (cardBgKey index) (pendingImages st)).

(** ** The save middleware: images *)

(** The characters of the class [[A-Za-z-+\/]]. *)
Definition isSubtypeChar (c : ascii) : bool :=
  let n := nat_of_ascii c in
  ((65 <=? n)%nat && (n <=? 90)%nat) || ((97 <=? n)%nat && (n <=? 122)%nat)
  || (n =? 45)%nat || (n =? 43)%nat || (n =? 47)%nat.

(** The line terminators [.] does not match: line feed and carriage
    return. *)
Definition isLineTerminator (c : ascii) : bool :=
  let n := nat_of_ascii c in (n =? 10)%nat || (n =? 13)%nat.

Fixpoint allChars (f : ascii -> bool) (s : string) : bool :=
  match s with
  | String c s' => f c && allChars f s'
  | EmptyString => true
  end.

(** The longest prefix of [s] made of characters of the class, and what
    follows it. *)
Fixpoint spanSubtype (s : string) : string * string :=
  match s with
  | String c s' =>
      if isSubtypeChar c
      then let '(t, rest) := spanSubtype s' in (String c t, rest)
      else (EmptyString, s)
  | EmptyString => (EmptyString, EmptyString)
  end.

(** [base64Data.match(/^data:image\/([A-Za-z-+\/]+);base64,(.+)$/)]: the
    two groups, or [None] when there is no match. The first group cannot
    stop short of the first character outside its class, since that
    character has to be the [;]. *)
Definition matchDataUrl (s : string) : option (string * string) :=
  if String.prefix "data:image/" s then
    let '(subtype, rest) := spanSubtype (skipString 11 s) in
    if (subtype =? "")%string then None
    else if String.prefix ";base64," rest then
      let data := skipString 8 rest in
      if (data =? "")%string then None
      else if allChars (fun c => negb (isLineTerminator c)) data
           then Some (subtype, data)
           else None
    else None
  else None.

(** [matches[1] === 'jpeg' ? 'jpg' : matches[1]]. *)
Definition extensionOf (subtype : string) : string :=
  if (subtype =? "jpeg")%string then "jpg"%string else subtype.

(** [`${key}_${Date.now()}.${extension}`]. *)
Definition uploadName (key : string) (now : nat) (extension : string)
  : string :=
  (key ++ "_" ++ decimal now ++ "." ++ extension)%string.

(** [config.cards[idx].bg = url] when [config.cards[idx]] exists. *)
Fixpoint setBgAt (idx : nat) (url : string) (cards : list CardItem)
  : list CardItem :=
  match cards, idx with
  | [], _ => []
  | c :: cs, O =>
      mkCardItem (id c) (title c) (description c) (cta c) (videoId c) url :: cs
  | c :: cs, S idx' => c :: setBgAt idx' url cs
  end.

(** The update of the configuration for one file written as [filename]:
    the logo for the key [logoImg]; for a key that starts with
    [card_bg_], the card whose index [parseInt] reads after the prefix,
    when that is a number and the card exists. *)
Definition applyUpload (key filename : string) (config : Config.SiteConfig)
  : Config.SiteConfig :=
  if (key =? "logoImg")%string then
    Config.set_logoImg ("/uploads/" ++ filename)%string config
  else if startsWith "card_bg_" key then
    match parseInt (removeFirst "card_bg_" key) with
    | Some idx =>
        if idx <? 0 then config
        else Config.set_cards
               (setBgAt (Z.to_nat idx) ("/uploads/" ++ filename)%string
                        (Config.cards config))
               config
    | None => config
    end
  else config.

(** What a save can tell of the disk: whether [public/uploads] exists or
    [mkdirSync] can make it, and for each path below [public] whether
    [writeFileSync] writes it or throws (as it does for a path into a
    directory that does not exist). *)
Record Disk : Type := mkDisk {
  uploadsReady : bool;
  writable : string -> bool
}.

(** How the loop over the images ends: it runs to its end, or a
    [writeFileSync] throws; the files written before stay on the disk. *)
Inductive LoopEnd : Type :=
| Completed (config : Config.SiteConfig) (files : list (string * string))
| Threw (files : list (string * string)).

(** The loop over [Object.entries(images)]: for each entry whose value
    starts with [data:image] and matches, a file is written (recorded here
    as its name and its base64 text) and the configuration updated.
    [now i] is what [Date.now()] returns while entry [i] is processed. *)
Fixpoint processImages (disk : Disk) (now : nat -> nat) (i : nat)
  (images : Obj) (config : Config.SiteConfig) (files : list (string * string))
  : LoopEnd :=
  match images with
  | [] => Completed config files
  | (key, base64Data) :: images' =>
      if startsWith "data:image" base64Data then
        match matchDataUrl base64Data with
        | Some (subtype, data) =>
            let filename := uploadName key (now i) (extensionOf subtype) in
            if writable disk ("uploads/" ++ filename)%string then
              processImages disk now (S i) images'
                            (applyUpload key filename config)
                            (files ++ [(filename, data)])
            else Threw files
        | None => processImages disk now (S i) images' config files
        end
      else processImages disk now (S i) images' config files
  end.

(** What a request has done when the middleware has answered it: the
    status of the response, the files written to [public/uploads], and
    what was written to [public/config.json], if anything. *)
Record Saved : Type := mkSaved {
  statusCode : Z;
  uploaded : list (string * string);
  configJson : option Config.SiteConfig
}.

(** The middleware on a payload [{ images, config }] whose images are
    strings and whose [config] is a configuration. Whatever throws inside
    its [try] is answered with status 500, and [config.json] is not
    written then. *)
Definition saveConfig (disk : Disk) (now : nat -> nat) (images : Obj)
  (config : Config.SiteConfig) : Saved :=
  if uploadsReady disk then
    match processImages disk now 0 images config [] with
    | Completed config' files =>
        if writable disk "config.json"
        then mkSaved 200 files (Some config')
        else mkSaved 500 files None
    | Threw files => mkSaved 500 files None
    end
  else mkSaved 500 [] None.

(** A disk on which [public/uploads] exists and has no directory in it:
    a file can be written in [public] and in [public/uploads], and nowhere
    else. *)
Fixpoint slashes (s : string) : nat :=
  match s with
  | String c s' => ((if Ascii.eqb c "/" then 1 else 0) + slashes s')%nat
  | EmptyString => 0%nat
  end.

Definition flatDisk : Disk :=
  mkDisk true
    (fun path => if String.prefix "uploads/" path
                 then (slashes path =? 1)%nat
                 else (slashes path =? 0)%nat).

(** ** Cards up to their background *)

(** A card with its background replaced by [url]. *)
Definition withBg (url : string) (c : CardItem) : CardItem :=
  mkCardItem (id c) (title c) (description c) (cta c) (videoId c) url.

(** Everything of a card but its background. *)
Definition cardText (c : CardItem) : Z * string * string * string * string :=
  (id c, title c, description c, cta c, videoId c).

(** What [applyUpload] keeps of a configuration. *)
Definition sameButImages (config config' : Config.SiteConfig) : Prop :=
  map cardText (Config.cards config') = map cardText (Config.cards config) /\
  Config.navTitle config' = Config.navTitle config /\
  Config.menuLinks config' = Config.menuLinks config /\
  Config.heroTitle config' = Config.heroTitle config /\
  Config.heroSubtitle config' = Config.heroSubtitle config /\
  Config.heroText config' = Config.heroText config /\
  Config.pruebameText config' = Config.pruebameText config /\
  Config.pruebameUrl config' = Config.pruebameUrl config /\
  Config.footerText config' = Config.footerText config /\
  Config.footerLinks config' = Config.footerLinks config.

(** The files of a loop, however it ended. *)
Definition filesOf (e : LoopEnd) : list (string * string) :=
  match e with
  | Completed _ files => files
  | Threw files => files
  end.

(** ** A concrete configuration *)

(** [defaultConfig] of the configuration context; the logo is the bundled
    asset, named here by its file. *)
Definition defaultConfig : Config.SiteConfig :=
  Config.mkSiteConfig
    "b9f5696472bd25bd16dc310ed8ae2d575f62d935.png"
    "Otzi"
    [ Config.mkLink "WeÖtzi" "#"; Config.mkLink "Buscar Artistas" "#";
      Config.mkLink "Blog" "#"; Config.mkLink "Proyecto Bauhaus" "#";
      Config.mkLink "FAQ" "#"; Config.mkLink "Soporte" "#" ]
    "EL ARTE DEL TATUAJE,"
    "REIMAGINADO"
    "Conectamos a los mejores artistas con amantes del tatuaje a través de una plataforma innovadora impulsada por IA. Gestiona cotizaciones, citas y tu portafolio en un solo lugar."
    "PULSÁME"
    "#"
    defaultCards
    "© 2026 Otzi."
    [ Config.mkLink "Privacidad" "#"; Config.mkLink "Términos" "#" ].

(** ** The drag and momentum engine on doubles *)

(** The hook [useDragCarousel] once more, every number that holds pixels,
    milliseconds or a velocity being the IEEE 754 double it is in the
    program: [+], [-], [*] and [/] round to nearest, ties to even, a
    comparison with NaN is false, and a decimal literal is the double
    nearest to it. A number that holds an index stays an integer,
    or is NaN. *)
Module F64.

(** [x > y] and [x < y]: false when one of the two is NaN. *)
Definition gt (x y : float) : bool := PrimFloat.ltb y x.
Definition lt (x y : float) : bool := PrimFloat.ltb x y.

(** [x <= y]. *)
Definition le (x y : float) : bool := PrimFloat.leb x y.

(** [Math.abs]. *)
Definition Math_abs (x : float) : float := PrimFloat.abs x.

(** [Math.round]: the integer nearest to [x], a tie going up; [None] for
    NaN and the two infinities, which it returns as they are. A finite
    double is [n * 2 ^ e] for the integers [n] and [e] of its
    representation. *)
Definition Math_round (x : float) : option Z :=
  match Prim2SF x with
  | S754_zero _ => Some 0
  | S754_finite s m e =>
      let n := if s then Z.neg m else Z.pos m in
      Some (if 0 <=? e then n * 2 ^ e
            else (2 * n + 2 ^ (- e)) / 2 ^ (1 - e))
  | _ => None
  end.

(** The double nearest to the integer [z], a tie going to the even
    significand of 53 bits: [z] itself below [2 ^ 53] in magnitude, and
    [None], for an infinity, from [2 ^ 1024] on. *)
Definition nearestDouble (z : Z) : option Z :=
  let a := Z.abs z in
  let sh := Z.log2 a - 52 in
  if sh <=? 0 then Some z
  else
    let q := Z.shiftr a sh in
    let r := a - Z.shiftl q sh in
    let half := Z.shiftl 1 (sh - 1) in
    let q := if r <? half then q
             else if half <? r then q + 1
             else if Z.even q then q else q + 1 in
    let m := Z.shiftl q sh in
    if m <? 2 ^ 1024 then Some (Z.sgn z * m) else None.

(** The double nearest to an integer, and the integer a double is, when
    it is one. *)
Definition ofInteger (z : Z) : float :=
  SF2Prim (binary_normalize prec emax z 0 false).

Definition toInteger (x : float) : option Z :=
  match Prim2SF x with
  | S754_zero _ => Some 0
  | S754_finite s m e =>
      let n := if s then Z.neg m else Z.pos m in
      if 0 <=? e then Some (n * 2 ^ e)
      else if n mod 2 ^ (- e) =? 0 then Some (n / 2 ^ (- e)) else None
  | _ => None
  end.

(** The value of [activeIndex]: an integer, or NaN. *)
Inductive Index : Type :=
| At (i : Z)
| NaN.

(** [Object.is] on two values of [activeIndex], by which React tells
    whether the state has changed. *)
Definition sameIndex (a b : Index) : bool :=
  match a, b with
  | At i, At j => i =? j
  | NaN, NaN => true
  | _, _ => false
  end.

(** [useLayoutConfig(bp).sideOffset]. *)
Definition sideOffset (bp : Breakpoint) : float :=
  match bp with
  | mobile => 220%float
  | tablet => 270%float
  | desktop => 340%float
  end.

(** The state of the hook, as in the first embedding. *)
Record Carousel : Type := mkCarousel {
  activeIndex : Index;
  dragX : float;
  dragXRef : float;
  dragging : bool;
  captured : bool;
  startX : float;
  lastX : float;
  lastTime : float;
  velocity : float;
  rafId : option (float * float)
}.

Definition set_activeIndex (v : Index) (s : Carousel) : Carousel :=
  mkCarousel v (dragX s) (dragXRef s) (dragging s) (captured s)
             (startX s) (lastX s) (lastTime s) (velocity s) (rafId s).
Definition setDragX (v : float) (s : Carousel) : Carousel :=
  mkCarousel (activeIndex s) v (dragXRef s) (dragging s) (captured s)
             (startX s) (lastX s) (lastTime s) (velocity s) (rafId s).
Definition set_dragXRef (v : float) (s : Carousel) : Carousel :=
  mkCarousel (activeIndex s) (dragX s) v (dragging s) (captured s)
             (startX s) (lastX s) (lastTime s) (velocity s) (rafId s).
Definition set_dragging (v : bool) (s : Carousel) : Carousel :=
  mkCarousel (activeIndex s) (dragX s) (dragXRef s) v (captured s)
             (startX s) (lastX s) (lastTime s) (velocity s) (rafId s).
Definition set_captured (v : bool) (s : Carousel) : Carousel :=
  mkCarousel (activeIndex s) (dragX s) (dragXRef s) (dragging s) v
             (startX s) (lastX s) (lastTime s) (velocity s) (rafId s).
Definition set_startX (v : float) (s : Carousel) : Carousel :=
  mkCarousel (activeIndex s) (dragX s) (dragXRef s) (dragging s) (captured s)
             v (lastX s) (lastTime s) (velocity s) (rafId s).
Definition set_lastX (v : float) (s : Carousel) : Carousel :=
  mkCarousel (activeIndex s) (dragX s) (dragXRef s) (dragging s) (captured s)
             (startX s) v (lastTime s) (velocity s) (rafId s).
Definition set_lastTime (v : float) (s : Carousel) : Carousel :=
  mkCarousel (activeIndex s) (dragX s) (dragXRef s) (dragging s) (captured s)
             (startX s) (lastX s) v (velocity s) (rafId s).
Definition set_velocity (v : float) (s : Carousel) : Carousel :=
  mkCarousel (activeIndex s) (dragX s) (dragXRef s) (dragging s) (captured s)
             (startX s) (lastX s) (lastTime s) v (rafId s).
Definition set_rafId (v : option (float * float)) (s : Carousel) : Carousel :=
  mkCarousel (activeIndex s) (dragX s) (dragXRef s) (dragging s) (captured s)
             (startX s) (lastX s) (lastTime s) (velocity s) v.

(** [useState(0)], [useRef(0)], [useRef(false)]. *)
Definition initial : Carousel :=
  mkCarousel (At 0) 0 0 false false 0 0 0 0 None.

(** [e.clientX], [e.button], whether [e.target.closest("button, a")]
    finds an element, and what [performance.now()] returns while the
    handler runs. *)
Record PointerEvent : Type := mkPointerEvent {
  clientX : float;
  button : Z;
  onControl : bool;
  now : float
}.

Section DragCarousel.

(** The hook's parameters [sideOffset] and [N]. *)
Variable side : float.
Variable N : Z.

Definition friction : float := 0.93.

(** [next = ((next % N) + N) % N]; [%] by 0 gives NaN. *)
Definition wrap (next : Z) : Index :=
  if N =? 0 then NaN else At (Z.rem (Z.rem next N + N) N).

(** [prev + dir] for [dir] one of 1 and -1, wrapped; the sum of an index
    and 1 or -1 is an integer far below [2 ^ 53], so no rounding occurs. *)
Definition moveBy (dir : Z) (prev : Index) : Index :=
  match prev with
  | At p => wrap (p + dir)
  | NaN => NaN
  end.

(** [prev + steps] for the rounded [steps], wrapped: the sum is the double
    nearest to it, and NaN comes out of an infinity. *)
Definition snapBy (steps : option Z) (prev : Index) : Index :=
  match prev, steps with
  | At p, Some k =>
      match nearestDouble (p + k) with
      | Some next => wrap next
      | None => NaN
      end
  | _, _ => NaN
  end.

(** [steps !== 0]. *)
Definition nonZero (steps : option Z) : bool :=
  match steps with
  | Some k => negb (k =? 0)
  | None => true
  end.

Definition cancelMomentum (s : Carousel) : Carousel := set_rafId None s.

(** [startMomentum]: the closure starts from [initialVel] and from
    [dragXRef.current], and its first callback is scheduled. *)
Definition startMomentum (initialVel : float) (s : Carousel) : Carousel :=
  set_rafId (Some (initialVel, dragXRef s)) s.

(** One run of [tick], the closure's variables being [vel] and [offset]. *)
Definition tick (vel offset : float) (s : Carousel) : Carousel :=
  let vel := (vel * friction)%float in
  let offset := (offset + vel)%float in
  if gt (Math_abs offset) (side * 0.35)%float then
    let steps := Math_round (- offset / side)%float in
    let s := if nonZero steps
             then set_activeIndex (snapBy steps (activeIndex s)) s
             else s in
    set_rafId None (set_velocity 0 (setDragX 0 s))
  else if lt (Math_abs vel) 0.4 then
    let s := if gt (Math_abs offset) (side * 0.25)%float
             then let dir := if lt offset 0 then 1 else -1 in
                  set_activeIndex (moveBy dir (activeIndex s)) s
             else s in
    set_rafId None (setDragX 0 s)
  else
    set_rafId (Some (vel, offset)) (setDragX offset s).

Definition handlePointerDown (e : PointerEvent) (s : Carousel) : Carousel :=
  if onControl e then s
  else if negb (button e =? 0) then s
  else
    let s := cancelMomentum s in
    let s := set_captured false (set_dragging true s) in
    let s := set_lastX (clientX e) (set_startX (clientX e) s) in
    set_velocity 0 (set_lastTime (now e) s).

Definition handlePointerMove (e : PointerEvent) (s : Carousel) : Carousel :=
  if negb (dragging s) then s
  else
    let totalDX := (clientX e - startX s)%float in
    let s := if negb (captured s) && gt (Math_abs totalDX) 5
             then set_captured true s else s in
    if negb (captured s) then s
    else
      let dt := (now e - lastTime s)%float in
      let dx := (clientX e - lastX s)%float in
      let s := if gt dt 0 then set_velocity (dx / dt * 16)%float s else s in
      let s := set_lastTime (now e) (set_lastX (clientX e) s) in
      setDragX totalDX s.

Definition handlePointerUp (e : PointerEvent) (s : Carousel) : Carousel :=
  if negb (dragging s) then s
  else
    let s := set_dragging false s in
    if negb (captured s) then setDragX 0 s
    else
      let totalDX := (clientX e - startX s)%float in
      let vel := velocity s in
      if gt (Math_abs vel) 2 then startMomentum vel s
      else
        let s := if gt (Math_abs totalDX) (side * 0.25)%float
                 then let dir := if lt totalDX 0 then 1 else -1 in
                      set_activeIndex (moveBy dir (activeIndex s)) s
                 else s in
        setDragX 0 s.

(** [(p + 1) % N] and [(p - 1 + N) % N]. *)
Definition next (s : Carousel) : Carousel :=
  set_activeIndex
    (match activeIndex s with
     | At p => if N =? 0 then NaN else At (Z.rem (p + 1) N)
     | NaN => NaN
     end) s.
Definition prev (s : Carousel) : Carousel :=
  set_activeIndex
    (match activeIndex s with
     | At p => if N =? 0 then NaN else At (Z.rem (p - 1 + N) N)
     | NaN => NaN
     end) s.

(** The browser runs the scheduled animation frame callback, if any. *)
Definition animationFrame (s : Carousel) : Carousel :=
  match rafId s with
  | Some (vel, offset) => tick vel offset s
  | None => s
  end.

(** The hook's effects, run after a handler took the state from [old] to
    [s]: [setDragX(0); cancelMomentum()] when [activeIndex] changed, and
    [dragXRef.current = dragX]. *)
Definition commit (old s : Carousel) : Carousel :=
  let s := if sameIndex (activeIndex s) (activeIndex old) then s
           else cancelMomentum (setDragX 0 s) in
  set_dragXRef (dragX s) s.

(** What the environment can do to the mounted carousel. *)
Inductive Event : Type :=
| PointerDown (e : PointerEvent)
| PointerMove (e : PointerEvent)
| PointerUp (e : PointerEvent)
| AnimationFrame
| Next
| Prev
| Paginate (i : nat).

Definition handle (ev : Event) (s : Carousel) : Carousel :=
  match ev with
  | PointerDown e => handlePointerDown e s
  | PointerMove e => handlePointerMove e s
  | PointerUp e => handlePointerUp e s
  | AnimationFrame => animationFrame s
  | Next => next s
  | Prev => prev s
  | Paginate i => set_activeIndex (At (Z.of_nat i)) s
  end.

Definition step (s : Carousel) (ev : Event) : Carousel :=
  commit s (handle ev s).

Definition run (s : Carousel) (evs : list Event) : Carousel :=
  fold_left step evs s.

(** [k] animation frames in a row. *)
Definition frames (k : nat) (s : Carousel) : Carousel :=
  run s (repeat AnimationFrame k).

(** The closure's [vel] and [offset] after [k] runs of
    [vel *= friction; offset += vel]. *)
Fixpoint coastVel (v : float) (k : nat) : float :=
  match k with
  | O => v
  | S k' => (coastVel v k' * friction)%float
  end.

Fixpoint coastOffset (v o : float) (k : nat) : float :=
  match k with
  | O => o
  | S k' => (coastOffset v o k' + coastVel v (S k'))%float
  end.


End DragCarousel.

(** The hook as [TattooCarousel] calls it. *)
Definition carouselStep (items : list CardItem) (bp : Breakpoint)
  : Carousel -> Event -> Carousel :=
  step (sideOffset bp) (itemCount items).

Definition carouselRun (items : list CardItem) (bp : Breakpoint)
  : Carousel -> list Event -> Carousel :=
  run (sideOffset bp) (itemCount items).

(** A pagination dot exists for each item and for nothing else. *)
Definition enabled (items : list CardItem) (ev : Event) : Prop :=
  match ev with
  | Paginate i => (i < List.length items)%nat
  | _ => True
  end.

(** The states the mounted carousel can be in. *)
Definition reachable (items : list CardItem) (bp : Breakpoint)
  (s : Carousel) : Prop :=
  exists evs, Forall (enabled items) evs /\ s = carouselRun items bp initial evs.

Definition gesture (down : PointerEvent) (moves : list PointerEvent)
  (up : PointerEvent) : list Event :=
  PointerDown down :: map PointerMove moves ++ [PointerUp up].

(** The pointer-down that starts a drag: primary button, not on a button
    or a link. *)
Definition startsDrag (e : PointerEvent) : Prop :=
  onControl e = false /\ button e = 0.

(** The horizontal displacement of event [e] from the pointer-down, as
    the handlers compute it: [e.clientX - startX.current]. *)
Definition displacement (down e : PointerEvent) : float :=
  (clientX e - clientX down)%float.

(** The ref mirrors the state, and no animation frame is pending while
    the pointer is down. *)
Definition settled (s : Carousel) : Prop :=
  dragXRef s = dragX s /\ (dragging s = true -> rafId s = None).

(** A primary-button pointer event on the carousel surface, at horizontal
    position [x] and time [t]. *)
Definition pointerAt (x t : float) : PointerEvent := mkPointerEvent x 0 false t.

End F64.

(** * Properties *)

(** ** Comparisons *)

Lemma gt_true (x y : Q) : Js.gt x y = true <-> (y < x)%Q.
Proof.
  unfold Js.gt. rewrite negb_true_iff.
  split; intro H.
  - apply Qnot_le_lt. intro Hle. apply Qle_bool_iff in Hle. congruence.
  - destruct (Qle_bool x y) eqn:E; [|reflexivity].
    apply Qle_bool_iff in E. exfalso. apply (Qlt_not_le _ _ H E).
Qed.

Lemma gt_false (x y : Q) : Js.gt x y = false <-> (x <= y)%Q.
Proof.
  unfold Js.gt. rewrite negb_false_iff. apply Qle_bool_iff.
Qed.

Lemma lt_true (x y : Q) : Js.lt x y = true <-> (x < y)%Q.
Proof. apply gt_true. Qed.

Lemma lt_false (x y : Q) : Js.lt x y = false <-> (y <= x)%Q.
Proof. apply gt_false. Qed.

(** Against the exact half of an integer, the comparison is one of
    integers. *)
Lemma gt_half (d N : Z) :
  Js.gt (inject_Z d) (inject_Z N / 2)%Q = (N <? 2 * d).
Proof.
  destruct (N <? 2 * d) eqn:E.
  - apply gt_true. apply Z.ltb_lt in E.
    unfold Qlt, Qdiv, Qmult, Qinv, inject_Z. simpl. lia.
  - apply gt_false. apply Z.ltb_ge in E.
    unfold Qle, Qdiv, Qmult, Qinv, inject_Z. simpl. lia.
Qed.

Lemma lt_neg_half (d N : Z) :
  Js.lt (inject_Z d) (- inject_Z N / 2)%Q = (2 * d <? - N).
Proof.
  destruct (2 * d <? - N) eqn:E.
  - apply lt_true. apply Z.ltb_lt in E.
    unfold Qlt, Qdiv, Qmult, Qinv, Qopp, inject_Z. simpl. lia.
  - apply lt_false. apply Z.ltb_ge in E.
    unfold Qle, Qdiv, Qmult, Qinv, Qopp, inject_Z. simpl. lia.
Qed.

(** ** Slot math *)

Lemma getSlot_cases (i active N : Z) :
  getSlot i active N =
    (if N <? 2 * (i - active) then i - active - N
     else if 2 * (i - active) <? - N then i - active + N
     else i - active).
Proof.
  unfold getSlot. cbv zeta. rewrite gt_half.
  destruct (N <? 2 * (i - active)) eqn:E; rewrite lt_neg_half.
  - apply Z.ltb_lt in E.
    destruct (2 * (i - active - N) <? - N) eqn:E'; [|reflexivity].
    apply Z.ltb_lt in E'. lia.
  - reflexivity.
Qed.

Ltac slot_cases :=
  rewrite ?getSlot_cases;
  repeat match goal with
         | |- context [?a <? ?b] =>
             let E := fresh "E" in
             destruct (Z.ltb_spec a b) as [E | E]
         | H : context [?a <? ?b] |- _ =>
             let E := fresh "E" in
             destruct (Z.ltb_spec a b) as [E | E]
         end.

Lemma getSlot_self (a N : Z) : 1 <= N -> getSlot a a N = 0.
Proof. intros HN. slot_cases; lia. Qed.

Lemma getSlot_congruent (i a N : Z) :
  exists k, getSlot i a N = i - a + k * N.
Proof.
  rewrite getSlot_cases.
  destruct (N <? 2 * (i - a)); [exists (-1); lia|].
  destruct (2 * (i - a) <? - N); [exists 1 | exists 0]; lia.
Qed.

Lemma getSlot_closed_range (i a N : Z) :
  1 <= N -> 0 <= i < N -> 0 <= a < N ->
  - floor_half N <= getSlot i a N <= floor_half N.
Proof.
  intros HN Hi Ha. unfold floor_half.
  pose proof (Z.div_mod N 2 ltac:(lia)) as Hdm.
  pose proof (Z.mod_pos_bound N 2 ltac:(lia)) as Hm.
  slot_cases; lia.
Qed.

(** C1, as the spec states it, fails: with two items the card before the
    active one sits in slot -1, the excluded end of the interval. *)
Lemma C1_counterexample :
  1 <= 2 /\ 0 <= 0 < 2 /\ 0 <= 1 < 2 /\
  getSlot 0 1 2 = -1 /\
  ~ (- ceil_half 2 < getSlot 0 1 2 <= floor_half 2).
Proof.
  repeat split; try lia; try reflexivity.
  vm_compute. intros [H _]. discriminate H.
Qed.

(** C1 (amended): for every item count N >= 1 and all indices i, a in
    [0,N), [getSlot i a N] lies in the closed interval
    [-floor(N/2), floor(N/2)], and [getSlot a a N = 0]. *)
Theorem C1_getSlot_range (i a N : Z) :
  1 <= N -> 0 <= i < N -> 0 <= a < N ->
  - floor_half N <= getSlot i a N <= floor_half N /\ getSlot a a N = 0.
Proof.
  intros HN Hi Ha. split.
  - now apply getSlot_closed_range.
  - now apply getSlot_self.
Qed.

Lemma C1_getSlot_range_witness :
  - floor_half 4 <= getSlot 0 2 4 <= floor_half 4 /\ getSlot 2 2 4 = 0.
Proof. apply (C1_getSlot_range 0 2 4); lia. Defined.

(** The lower end is attained for every even count, and the spec's
    half-open interval holds for every odd count. *)
Lemma getSlot_even_lower_end (m : Z) :
  1 <= m -> getSlot 0 m (2 * m) = - m.
Proof. intros Hm. slot_cases; lia. Qed.

Lemma getSlot_odd_half_open (i a N : Z) :
  1 <= N -> N mod 2 = 1 -> 0 <= i < N -> 0 <= a < N ->
  - ceil_half N < getSlot i a N <= floor_half N.
Proof.
  intros HN Hodd Hi Ha.
  pose proof (getSlot_closed_range i a N HN Hi Ha) as H.
  unfold ceil_half, floor_half in *.
  pose proof (Z.div_mod N 2 ltac:(lia)) as Hdm.
  pose proof (Z.div_mod (N + 1) 2 ltac:(lia)) as Hdm'.
  pose proof (Z.mod_pos_bound (N + 1) 2 ltac:(lia)) as Hm'.
  lia.
Qed.

(** C9: for every item count N >= 1 and active index a in [0,N), the map
    [i |-> getSlot i a N] is injective on [0,N), and [getSlot i a N = 0]
    exactly when [i = a]. *)
Theorem C9_getSlot_injective (a N : Z) :
  1 <= N -> 0 <= a < N ->
  (forall i j, 0 <= i < N -> 0 <= j < N ->
               getSlot i a N = getSlot j a N -> i = j) /\
  (forall i, 0 <= i < N -> (getSlot i a N = 0 <-> i = a)).
Proof.
  intros HN Ha.
  assert (Hinj : forall i j, 0 <= i < N -> 0 <= j < N ->
                 getSlot i a N = getSlot j a N -> i = j).
  { intros i j Hi Hj Heq.
    destruct (getSlot_congruent i a N) as [k Hk].
    destruct (getSlot_congruent j a N) as [l Hl].
    assert (Hd : i - j = (l - k) * N) by lia.
    assert (Hz : l - k = 0) by nia.
    rewrite Hz in Hd. lia. }
  split; [exact Hinj|].
  intros i Hi. split.
  - intros H0. apply Hinj; try assumption.
    rewrite H0. symmetry. now apply getSlot_self.
  - intros ->. now apply getSlot_self.
Qed.

Lemma C9_getSlot_injective_witness :
  (forall i j, 0 <= i < 4 -> 0 <= j < 4 ->
               getSlot i 1 4 = getSlot j 1 4 -> i = j) /\
  (forall i, 0 <= i < 4 -> (getSlot i 1 4 = 0 <-> i = 1)).
Proof. apply (C9_getSlot_injective 1 4); lia. Defined.

(** The spec's end-to-end example: four items, then a right-arrow press. *)
Example slots_four_items :
  map (fun i => getSlot i 0 4) [0; 1; 2; 3] = [0; 1; 2; -1] /\
  activeIndex (carouselRun defaultCards desktop initial [Next]) = 1 /\
  map (fun i => getSlot i 1 4) [0; 1; 2; 3] = [-1; 0; 1; 2].
Proof. repeat split. Qed.

Example breakpoint_boundaries :
  getBreakpoint 639 = mobile /\ getBreakpoint 640 = tablet /\
  getBreakpoint 1179 = tablet /\ getBreakpoint 1180 = desktop.
Proof. repeat split. Qed.

(** ** Index arithmetic *)

Lemma rem_range (x N : Z) : 0 < N -> - N < Z.rem x N < N.
Proof.
  intros HN. destruct (Z.le_ge_cases 0 x) as [Hx | Hx].
  - pose proof (Z.rem_bound_pos x N Hx HN). lia.
  - pose proof (Z.rem_bound_pos_neg x N HN Hx). lia.
Qed.

(** The double remainder is the mathematical modulo. *)
Lemma wrap_mod (N x : Z) : 0 < N -> wrap N x = x mod N.
Proof.
  intros HN. unfold wrap.
  pose proof (rem_range x N HN) as Hr.
  rewrite Z.rem_mod_nonneg by lia.
  rewrite (Z.rem_eq x N) by lia.
  replace (x - N * (x ÷ N) + N) with (x + (1 - x ÷ N) * N) by ring.
  apply Z_mod_plus_full.
Qed.

Lemma wrap_range (N x : Z) : 0 < N -> 0 <= wrap N x < N.
Proof.
  intros HN. rewrite wrap_mod by assumption.
  apply Z.mod_pos_bound. assumption.
Qed.

Lemma wrap_small (N x : Z) : 0 <= x < N -> wrap N x = x.
Proof.
  intros Hx. rewrite wrap_mod by lia. apply Z.mod_small. assumption.
Qed.

Lemma next_mod (N p : Z) : 0 < N -> 0 <= p -> Z.rem (p + 1) N = (p + 1) mod N.
Proof. intros. apply Z.rem_mod_nonneg; lia. Qed.

Lemma prev_mod (N p : Z) :
  0 < N -> 0 <= p -> Z.rem (p - 1 + N) N = (p - 1) mod N.
Proof.
  intros. rewrite Z.rem_mod_nonneg by lia.
  replace (p - 1 + N) with (p - 1 + 1 * N) by ring.
  apply Z_mod_plus_full.
Qed.

Lemma itemCount_pos (items : list CardItem) : 1 <= itemCount items.
Proof.
  unfold itemCount.
  destruct (Z.of_nat (List.length items) >? 0) eqn:E; [|lia].
  apply Z.gtb_lt in E. lia.
Qed.

Lemma itemCount_length (items : list CardItem) :
  items <> [] -> itemCount items = Z.of_nat (List.length items).
Proof.
  intros Hne. unfold itemCount.
  destruct items as [|x xs]; [congruence|].
  reflexivity.
Qed.

Lemma itemCount_nil : itemCount [] = 1.
Proof. reflexivity. Qed.

(** Every count from 1 up is the count of some item list. *)
Lemma itemCount_any (N : Z) :
  1 <= N -> exists items, itemCount items = N.
Proof.
  intros HN.
  exists (repeat (mkCardItem 0 "" "" "" "" "") (Z.to_nat N)).
  rewrite itemCount_length.
  - rewrite repeat_length. lia.
  - destruct (Z.to_nat N) eqn:E; [lia | discriminate].
Qed.

(** ** State projections through the setters and the effects *)

Lemma activeIndex_commit (old s : Carousel) :
  activeIndex (commit old s) = activeIndex s.
Proof.
  unfold commit. destruct (activeIndex s =? activeIndex old); reflexivity.
Qed.


Lemma commit_same_index (old s : Carousel) :
  activeIndex s = activeIndex old ->
  commit old s = set_dragXRef (dragX s) s.
Proof.
  intros H. unfold commit. rewrite H, Z.eqb_refl. reflexivity.
Qed.

(** Case analysis on every test a handler makes. *)
Ltac handler_cases :=
  repeat match goal with
         | |- context [if ?c then _ else _] => destruct c eqn:?
         | |- context [match rafId ?s with _ => _ end] =>
             destruct (rafId s) as [[? ?]|] eqn:?
         end;
  cbn [activeIndex dragX dragXRef dragging captured startX lastX lastTime
       velocity rafId set_activeIndex setDragX set_dragXRef set_dragging
       set_captured set_startX set_lastX set_lastTime set_velocity set_rafId
       cancelMomentum startMomentum] in *.

Lemma enabled_indexInRange (items : list CardItem) (ev : Event) :
  enabled items ev -> indexInRange (itemCount items) ev.
Proof.
  destruct ev; simpl; trivial.
  intros Hi. rewrite itemCount_length.
  - lia.
  - destruct items; simpl in *; [lia | discriminate].
Qed.

Lemma handle_index_range (side : Q) (N : Z) (ev : Event) (s : Carousel) :
  1 <= N -> indexInRange N ev ->
  0 <= activeIndex s < N ->
  0 <= activeIndex (handle side N ev s) < N.
Proof.
  intros HN Hev Hs.
  assert (Hw : forall x, 0 <= wrap N x < N) by (intro; apply wrap_range; lia).
  destruct ev; simpl in *.
  - unfold handlePointerDown. handler_cases; auto.
  - unfold handlePointerMove. handler_cases; auto.
  - unfold handlePointerUp. handler_cases; auto.
  - unfold animationFrame, tick. handler_cases; auto.
  - rewrite next_mod by lia. apply Z.mod_pos_bound. lia.
  - rewrite prev_mod by lia. apply Z.mod_pos_bound. lia.
  - lia.
Qed.

Lemma step_index_range (side : Q) (N : Z) (ev : Event) (s : Carousel) :
  1 <= N -> indexInRange N ev ->
  0 <= activeIndex s < N ->
  0 <= activeIndex (step side N s ev) < N.
Proof.
  intros. unfold step. rewrite activeIndex_commit.
  now apply handle_index_range.
Qed.

Lemma run_index_range (side : Q) (N : Z) (evs : list Event) :
  1 <= N -> Forall (indexInRange N) evs ->
  forall s, 0 <= activeIndex s < N ->
            0 <= activeIndex (run side N s evs) < N.
Proof.
  intros HN Hall. induction Hall as [|ev evs Hev _ IH]; intros s Hs.
  - exact Hs.
  - simpl. apply IH. now apply step_index_range.
Qed.



(** ** Invariants of the reachable states *)





Lemma reachable_index_range (items : list CardItem) (bp : Breakpoint)
  (s : Carousel) :
  reachable items bp s -> 0 <= activeIndex s < itemCount items.
Proof.
  intros [evs [Hall ->]].
  pose proof (itemCount_pos items) as HN.
  apply run_index_range; [exact HN | | simpl; lia].
  eapply Forall_impl; [|exact Hall].
  intros ev. apply enabled_indexInRange.
Qed.





(** ** The deadzone *)

Lemma step_down_pressed (side : Q) (N : Z) (s : Carousel)
  (down : PointerEvent) :
  startsDrag down ->
  pressed (clientX down) (activeIndex s) (step side N s (PointerDown down)).
Proof.
  intros [Hc Hb]. unfold step. cbn [handle]. unfold handlePointerDown.
  rewrite Hc, Hb. cbn [Z.eqb negb].
  rewrite commit_same_index by reflexivity.
  repeat split.
Qed.

Lemma step_move_pressed (side : Q) (N : Z) (s : Carousel)
  (x0 : Q) (a : Z) (m : PointerEvent) :
  pressed x0 a s -> (Qabs (clientX m - x0) <= 5)%Q ->
  pressed x0 a (step side N s (PointerMove m)).
Proof.
  intros (Hd & Hc & Hx & Ha & Hr) Hm. unfold step. cbn [handle].
  assert (Hsame : handlePointerMove m s = s).
  { unfold handlePointerMove, Js.Math_abs.
    rewrite Hd, Hc, Hx. cbn [negb andb].
    apply gt_false in Hm. rewrite Hm. rewrite Hc. reflexivity. }
  rewrite Hsame. rewrite commit_same_index by reflexivity.
  repeat split; assumption.
Qed.

Lemma run_moves_pressed (side : Q) (N : Z) (x0 : Q) (a : Z)
  (moves : list PointerEvent) :
  Forall (fun m => Qabs (clientX m - x0) <= 5)%Q moves ->
  forall s, pressed x0 a s ->
            pressed x0 a (run side N s (map PointerMove moves)).
Proof.
  intros Hall. induction Hall as [|m moves Hm _ IH]; intros s Hs.
  - exact Hs.
  - simpl. apply IH. now apply step_move_pressed.
Qed.

Lemma step_up_pressed (side : Q) (N : Z) (s : Carousel)
  (x0 : Q) (a : Z) (up : PointerEvent) :
  pressed x0 a s ->
  let s' := step side N s (PointerUp up) in
  activeIndex s' = a /\ dragX s' = 0%Q /\ rafId s' = None /\
  dragging s' = false.
Proof.
  intros (Hd & Hc & Hx & Ha & Hr). cbv zeta. unfold step. cbn [handle].
  unfold handlePointerUp. rewrite Hd. cbn [negb set_dragging captured].
  rewrite Hc. cbn [negb].
  rewrite commit_same_index by reflexivity.
  cbn. repeat split; assumption.
Qed.

(** C5, as the spec states it, fails: a drag that leaves the deadzone and
    is flicked back to 3 pixels from its start is released with a
    displacement of at most 5 pixels, yet the drag offset is not 0 after
    the release and the coasting it starts changes the index. *)
Lemma C5_counterexample :
  let down := pointerAt 0 0 in
  let up := pointerAt 3 60 in
  let g := gesture down [pointerAt 100 50; pointerAt 3 58] up in
  startsDrag down /\
  (Qabs (displacement down up) <= 5)%Q /\
  dragX (carouselRun defaultCards mobile initial g) = 3%Q /\
  activeIndex (carouselRun defaultCards mobile initial (g ++ [AnimationFrame]))
    = 1 /\
  activeIndex initial = 0.
Proof.
  cbv zeta. repeat split.
  vm_compute. discriminate.
Qed.

(** C5 (amended): for every gesture of a pointer-down that starts a drag,
    pointer-moves that all stay within 5 pixels of the pointer-down, and a
    pointer-up anywhere, the active index is unchanged, the drag offset is
    0 afterwards and no coasting is scheduled. *)
Theorem C5_deadzone_gesture
  (items : list CardItem) (bp : Breakpoint) (s : Carousel)
  (down : PointerEvent) (moves : list PointerEvent) (up : PointerEvent) :
  startsDrag down ->
  Forall (fun m => Qabs (displacement down m) <= 5)%Q moves ->
  let s' := carouselRun items bp s (gesture down moves up) in
  activeIndex s' = activeIndex s /\ dragX s' = 0%Q /\ rafId s' = None /\
  dragging s' = false.
Proof.
  intros Hdown Hmoves. cbv zeta.
  unfold carouselRun, gesture, run.
  cbn [fold_left]. rewrite fold_left_app. cbn [fold_left].
  apply step_up_pressed with (x0 := clientX down).
  apply (run_moves_pressed _ _ _ _ moves Hmoves).
  apply step_down_pressed. exact Hdown.
Qed.

Lemma C5_deadzone_gesture_witness :
  let s := carouselRun defaultCards tablet initial [Next] in
  let s' := carouselRun defaultCards tablet s
              (gesture (pointerAt 10 0)
                 [pointerAt 13 8; pointerAt 15 16; pointerAt 6 24]
                 (pointerAt 6 30)) in
  activeIndex s' = activeIndex s /\ dragX s' = 0%Q /\ rafId s' = None /\
  dragging s' = false.
Proof.
  apply (C5_deadzone_gesture defaultCards tablet
           (carouselRun defaultCards tablet initial [Next])
           (pointerAt 10 0)
           [pointerAt 13 8; pointerAt 15 16; pointerAt 6 24]
           (pointerAt 6 30)).
  - split; reflexivity.
  - repeat constructor; vm_compute; discriminate.
Defined.

(** ** One animation frame of the momentum loop *)

Section Frame.

Variable side : Q.
Variable N : Z.





Lemma frames_S (k : nat) (s : Carousel) :
  frames side N (S k) s = frames side N k (step side N s AnimationFrame).
Proof. reflexivity. Qed.


End Frame.

(** ** The coasting recurrence *)



(** ** Coasting *)


(** The rounded number of steps can also exceed one. *)
Example snap_three_steps :
  let s := carouselRun defaultCards mobile initial
             (gesture (pointerAt 0 0) [pointerAt (-300) 16]
                      (pointerAt (-300) 20)) in
  activeIndex s = 0 /\
  activeIndex (carouselStep defaultCards mobile s AnimationFrame) = 3.
Proof. split; reflexivity. Qed.

(** ** Decay of the velocity *)












(** ** The render path on an empty item list *)

(** C7: with an empty item list the item count is 1 and the cards and the
    pagination render nothing, but the background layer reads
    [items[activeIndex].bg] with [items[0]] undefined: the render throws. *)
Theorem C7_empty_items_render_throws (bp : Breakpoint) :
  itemCount [] = 1 /\
  renderCards [] bp initial = [] /\
  renderDots [] initial = [] /\
  itemAt [] (activeIndex initial) = None /\
  render [] bp initial = Js.TypeError.
Proof. repeat split. Qed.

Lemma itemAt_in_range (items : list CardItem) (i : Z) :
  0 <= i < Z.of_nat (List.length items) ->
  exists item, itemAt items i = Some item.
Proof.
  intros Hi. unfold itemAt.
  destruct (Z.ltb_spec i 0) as [Hneg | _]; [lia|].
  destruct (nth_error items (Z.to_nat i)) as [item|] eqn:E.
  - exists item. reflexivity.
  - apply nth_error_None in E. lia.
Qed.

Lemma nth_error_indexed_from (items : list CardItem) :
  forall (k j : nat),
    nth_error (combine (map Z.of_nat (seq k (List.length items))) items) j =
    option_map (fun item => (Z.of_nat (k + j), item)) (nth_error items j).
Proof.
  induction items as [|x xs IH]; intros k j.
  - destruct j; reflexivity.
  - destruct j as [|j]; simpl.
    + rewrite Nat.add_0_r. reflexivity.
    + rewrite IH. replace (S k + j)%nat with (k + S j)%nat by lia.
      reflexivity.
Qed.

Lemma nth_error_indexed (items : list CardItem) (j : nat) :
  nth_error (indexed items) j =
  option_map (fun item => (Z.of_nat j, item)) (nth_error items j).
Proof. unfold indexed. apply nth_error_indexed_from. Qed.

Lemma cardRenders_lt (j : nat) : cardRenders (Z.of_nat j) = (j <? 4)%nat.
Proof.
  unfold cardRenders, geoIcon.
  destruct (Z.ltb_spec (Z.of_nat j) 0) as [H | _]; [lia|].
  rewrite Nat2Z.id. destruct j as [|[|[|[|j]]]]; try reflexivity.
  cbn. destruct j; reflexivity.
Qed.

(** Every card can be rendered exactly when there are at most four. *)
Lemma cardsRender_length (items : list CardItem) :
  forallb (fun p : Z * CardItem => cardRenders (fst p)) (indexed items)
  = (List.length items <=? 4)%nat.
Proof.
  apply Bool.eq_iff_eq_true. rewrite forallb_forall, Nat.leb_le. split.
  - intros H. destruct (le_lt_dec (List.length items) 4) as [Hle | Hgt];
      [exact Hle|]. exfalso.
    destruct (nth_error items 4) as [it|] eqn:E;
      [|apply nth_error_None in E; lia].
    assert (Hin : In (4, it) (indexed items)).
    { apply nth_error_In with (n := 4%nat).
      rewrite nth_error_indexed, E. reflexivity. }
    specialize (H _ Hin). discriminate H.
  - intros Hlen [z it] Hin. apply In_nth_error in Hin as [j Hj].
    rewrite nth_error_indexed in Hj.
    destruct (nth_error items j) as [it'|] eqn:E; [|discriminate Hj].
    injection Hj as <- <-. cbn [fst]. rewrite cardRenders_lt.
    apply Nat.ltb_lt.
    assert (j < List.length items)%nat by (apply nth_error_Some; congruence).
    lia.
Qed.

(** On a list of one to four items the render does not throw. *)
Lemma render_nonempty (items : list CardItem) (bp : Breakpoint)
  (s : Carousel) :
  items <> [] -> (List.length items <= 4)%nat -> reachable items bp s ->
  exists view, render items bp s = Js.Ok view.
Proof.
  intros Hne Hlen Hreach.
  pose proof (reachable_index_range _ _ _ Hreach) as Hi.
  rewrite itemCount_length in Hi by exact Hne.
  destruct (itemAt_in_range items _ Hi) as [item Hitem].
  unfold render, backgroundImage. rewrite Hitem, cardsRender_length.
  apply Nat.leb_le in Hlen. rewrite Hlen.
  eexists. reflexivity.
Qed.

(** ** The theme transition *)

(** Left alone, the overlay flips the theme at 350ms; the render that the
    flip causes sets both timers anew, so that completion is signalled at
    1950ms. *)
Example overlay_undisturbed :
  let o := overlayRun (trigger light) [Elapse 349; Elapse 1; Elapse 1600] in
  flips (overlayRun (trigger light) [Elapse 349]) = [] /\
  flips o = [350] /\ completions o = [1950] /\ theme o = dark /\
  mounted o = false.
Proof. repeat split. Qed.

(** C6: the effect's timers are set anew by every render of
    [TattooCarousel]. With no other event the theme flips at 350ms, the
    render the flip causes restarts the timers, and completion is signalled
    at 1950ms, not 1600ms: 1949ms after the trigger the overlay is still
    mounted. On the trace where [TattooCarousel] also renders 100ms after
    the trigger, the theme flips at 450ms, not 350ms, and completion is
    signalled at 2050ms. *)
Theorem C6_rerender_restarts_timers :
  let quiet := overlayRun (trigger light) [Elapse 2000] in
  let o := overlayRun (trigger light) [Elapse 100; Rerender; Elapse 2000] in
  flips quiet = [350] /\ completions quiet = [1950] /\
  completions (overlayRun (trigger light) [Elapse 1949]) = [] /\
  mounted (overlayRun (trigger light) [Elapse 1949]) = true /\
  flips (overlayRun (trigger light) [Elapse 100; Rerender; Elapse 349]) = [] /\
  flips o = [450] /\ completions o = [2050] /\ theme o = dark.
Proof. repeat split. Qed.

(** A render of the parent at the time of the flip changes nothing more:
    the flip has already restarted the timers. *)
Example overlay_rerender_at_flip :
  let o := overlayRun (trigger light) [Elapse 350; Rerender; Elapse 2000] in
  flips o = [350] /\ completions o = [1950].
Proof. repeat split. Qed.

Lemma flippedOnce_ext (o o' : Overlay) :
  hasFlipped o' = hasFlipped o -> flips o' = flips o ->
  flippedOnce o -> flippedOnce o'.
Proof. unfold flippedOnce. intros -> ->. trivial. Qed.

Lemma rerender_flags (o : Overlay) :
  hasFlipped (rerender o) = hasFlipped o /\ flips (rerender o) = flips o /\
  theme (rerender o) = theme o /\ completions (rerender o) = completions o /\
  mounted (rerender o) = mounted o /\ clock (rerender o) = clock o /\
  targetTheme (rerender o) = targetTheme o.
Proof. unfold rerender. destruct (mounted o) eqn:E; cbn; rewrite ?E; repeat split. Qed.

Lemma fireFlip_flippedOnce (t : Z) (o : Overlay) :
  flippedOnce o -> flippedOnce (fireFlip t o).
Proof.
  unfold flippedOnce, fireFlip.
  destruct (hasFlipped o); cbn [negb]; intros H.
  - exact H.
  - destruct (theme_eqb (theme o) (targetTheme o)).
    + cbn. rewrite H. reflexivity.
    + match goal with
      | |- context [rerender ?x] =>
          destruct (rerender_flags x) as (E1 & E2 & _)
      end.
      rewrite E1, E2. cbn. rewrite H. reflexivity.
Qed.

Lemma fireDueFlip_flippedOnce (t : Z) (o : Overlay) :
  flippedOnce o -> flippedOnce (fireDueFlip t o).
Proof.
  intros Ho. unfold fireDueFlip.
  destruct (flipTimer o) as [due|]; [|exact Ho].
  destruct (due <=? t); [|exact Ho].
  now apply fireFlip_flippedOnce.
Qed.

Lemma fireDueComplete_flippedOnce (t : Z) (o : Overlay) :
  flippedOnce o -> flippedOnce (fireDueComplete t o).
Proof.
  intros Ho. unfold fireDueComplete.
  destruct (cleanupTimer o) as [due|]; [|exact Ho].
  destruct (due <=? t); [|exact Ho].
  apply (flippedOnce_ext o); [reflexivity | reflexivity | exact Ho].
Qed.

Lemma overlayStep_flippedOnce (o : Overlay) (ev : OverlayEvent) :
  flippedOnce o -> flippedOnce (overlayStep o ev).
Proof.
  intros Ho. destruct ev as [ms| |]; cbn [overlayStep].
  - unfold elapse.
    apply (flippedOnce_ext
             (fireDueComplete (clock o + Z.of_nat ms)
                (fireDueFlip (clock o + Z.of_nat ms)
                   (fireDueFlip (clock o + Z.of_nat ms) o))));
      [reflexivity | reflexivity |].
    apply fireDueComplete_flippedOnce.
    apply fireDueFlip_flippedOnce. apply fireDueFlip_flippedOnce. exact Ho.
  - unfold rerender. destruct (mounted o); [|exact Ho].
    apply (flippedOnce_ext o); [reflexivity | reflexivity | exact Ho].
  - apply (flippedOnce_ext o); [reflexivity | reflexivity | exact Ho].
Qed.

Lemma overlayRun_flippedOnce (evs : list OverlayEvent) :
  forall o, flippedOnce o -> flippedOnce (overlayRun o evs).
Proof.
  induction evs as [|ev evs IH]; intros o Ho; simpl.
  - exact Ho.
  - apply IH. now apply overlayStep_flippedOnce.
Qed.

(** The theme is set at most once, whatever happens to the overlay. *)
Lemma overlay_flips_at_most_once (current : Theme)
  (evs : list OverlayEvent) :
  (List.length (flips (overlayRun (trigger current) evs)) <= 1)%nat.
Proof.
  assert (H : flippedOnce (overlayRun (trigger current) evs)).
  { apply overlayRun_flippedOnce. reflexivity. }
  unfold flippedOnce in H.
  destruct (hasFlipped (overlayRun (trigger current) evs)); rewrite H;
    simpl; lia.
Qed.

Lemma fireDueFlip_none (t : Z) (o : Overlay) :
  flipTimer o = None -> fireDueFlip t o = o.
Proof. intros H. unfold fireDueFlip. rewrite H. reflexivity. Qed.

Lemma fireDueComplete_none (t : Z) (o : Overlay) :
  cleanupTimer o = None -> fireDueComplete t o = o.
Proof. intros H. unfold fireDueComplete. rewrite H. reflexivity. Qed.

Lemma fireDueFlip_later (t due : Z) (o : Overlay) :
  flipTimer o = Some due -> t < due -> fireDueFlip t o = o.
Proof.
  intros H Hlt. unfold fireDueFlip. rewrite H.
  destruct (Z.leb_spec due t); [lia | reflexivity].
Qed.

Lemma fireDueComplete_later (t due : Z) (o : Overlay) :
  cleanupTimer o = Some due -> t < due -> fireDueComplete t o = o.
Proof.
  intros H Hlt. unfold fireDueComplete. rewrite H.
  destruct (Z.leb_spec due t); [lia | reflexivity].
Qed.

Lemma overlay_dead (evs : list OverlayEvent) :
  forall o, mounted o = false -> flipTimer o = None ->
            cleanupTimer o = None ->
            flips (overlayRun o evs) = flips o /\
            theme (overlayRun o evs) = theme o /\
            completions (overlayRun o evs) = completions o.
Proof.
  induction evs as [|ev evs IH]; intros o Hm Hf Hc.
  - repeat split.
  - simpl.
    assert (Hstep : mounted (overlayStep o ev) = false /\
                    flipTimer (overlayStep o ev) = None /\
                    cleanupTimer (overlayStep o ev) = None /\
                    flips (overlayStep o ev) = flips o /\
                    theme (overlayStep o ev) = theme o /\
                    completions (overlayStep o ev) = completions o).
    { destruct ev; cbn [overlayStep].
      - unfold elapse.
        rewrite !(fireDueFlip_none _ o Hf), (fireDueComplete_none _ o Hc).
        cbn. repeat split; assumption.
      - unfold rerender. rewrite Hm. repeat split; assumption.
      - cbn. repeat split. }
    destruct Hstep as (Hm' & Hf' & Hc' & Hfl & Hth & Hco).
    destruct (IH _ Hm' Hf' Hc') as (H1 & H2 & H3).
    rewrite H1, H2, H3. repeat split; assumption.
Qed.

Lemma elapse_early (o : Overlay) (ms : nat) (due due' : Z) :
  flipTimer o = Some due -> cleanupTimer o = Some due' ->
  clock o + Z.of_nat ms < due -> due <= due' ->
  flips (elapse ms o) = flips o /\ theme (elapse ms o) = theme o /\
  completions (elapse ms o) = completions o.
Proof.
  intros Hf Hc Hlt Hle. unfold elapse.
  rewrite !(fireDueFlip_later _ due o Hf Hlt).
  rewrite (fireDueComplete_later _ due' o Hc) by lia.
  repeat split.
Qed.

(** Torn down before the flip timer is due, the overlay never sets the
    theme and never signals completion. *)
Lemma overlay_unmounted_early (current : Theme) (ms : nat)
  (evs : list OverlayEvent) :
  (ms < 350)%nat ->
  let o := overlayRun (trigger current) (Elapse ms :: Unmount :: evs) in
  flips o = [] /\ theme o = current /\ completions o = [].
Proof.
  intros Hms. cbv zeta.
  change (overlayRun (trigger current) (Elapse ms :: Unmount :: evs))
    with (overlayRun (unmount (elapse ms (trigger current))) evs).
  destruct (overlay_dead evs (unmount (elapse ms (trigger current))))
    as (H1 & H2 & H3); try reflexivity.
  destruct (elapse_early (trigger current) ms 350 1600) as (E1 & E2 & E3);
    try reflexivity; [simpl; lia | lia |].
  rewrite H1, H2, H3. cbn [unmount cleanupEffect flips theme completions].
  rewrite E1, E2, E3. repeat split.
Qed.

(** * Further properties of the code *)

(** ** The slot as a circular distance *)

(** The slot of [i] seen from [a] is the opposite of the slot of [a] seen
    from [i]. *)
Theorem getSlot_antisymmetric (i a N : Z) :
  1 <= N -> getSlot a i N = - getSlot i a N.
Proof. intros HN. slot_cases; lia. Qed.

Lemma getSlot_antisymmetric_witness : getSlot 3 0 4 = - getSlot 0 3 4.
Proof. apply (getSlot_antisymmetric 0 3 4). lia. Defined.

(** The magnitude of the slot is the shorter way round the circle. *)
Theorem getSlot_circular_distance (i a N : Z) :
  1 <= N -> 0 <= i < N -> 0 <= a < N ->
  Z.abs (getSlot i a N) = Z.min (Z.abs (i - a)) (N - Z.abs (i - a)).
Proof. intros HN Hi Ha. slot_cases; lia. Qed.

Lemma getSlot_circular_distance_witness :
  Z.abs (getSlot 5 0 6) = Z.min (Z.abs (5 - 0)) (6 - Z.abs (5 - 0)).
Proof. apply (getSlot_circular_distance 5 0 6); lia. Defined.

(** ** Which cards are visible *)

Lemma succ_mod (a N : Z) :
  0 <= a < N -> (a + 1) mod N = if a + 1 <? N then a + 1 else 0.
Proof.
  intros Ha. destruct (Z.ltb_spec (a + 1) N) as [H | H].
  - apply Z.mod_small. lia.
  - replace (a + 1) with N by lia. apply Z_mod_same_full.
Qed.

Lemma pred_mod (a N : Z) :
  0 <= a < N -> (a - 1) mod N = if a =? 0 then N - 1 else a - 1.
Proof.
  intros Ha. destruct (Z.eqb_spec a 0) as [-> | H].
  - replace (0 - 1) with (N - 1 + (-1) * N) by ring.
    rewrite Z_mod_plus_full. apply Z.mod_small. lia.
  - apply Z.mod_small. lia.
Qed.

Lemma slotProps_opacity (slot : Z) (layout : LayoutConfig) :
  (0 < sp_opacity (slotProps slot layout))%Q <-> -1 <= slot <= 1.
Proof.
  unfold slotProps.
  destruct (Z.eqb_spec slot 0) as [-> | H0]; [simpl; split; [lia | reflexivity]|].
  destruct (Z.eqb_spec slot (-1)) as [-> | H1];
    [simpl; split; [lia | reflexivity]|].
  destruct (Z.eqb_spec slot 1) as [-> | H2];
    [simpl; split; [lia | reflexivity]|].
  simpl. split; [intros H; discriminate H | lia].
Qed.

(** A card is visible (its opacity is not 0) exactly when it is the
    active card or one of its two neighbours on the circle. *)
Theorem visible_cards_are_neighbours
  (bp : Breakpoint) (i a N : Z) :
  1 <= N -> 0 <= i < N -> 0 <= a < N ->
  ((0 < sp_opacity (slotProps (getSlot i a N) (useLayoutConfig bp)))%Q <->
   i = a \/ i = (a + 1) mod N \/ i = (a - 1) mod N).
Proof.
  intros HN Hi Ha. rewrite slotProps_opacity.
  rewrite succ_mod, pred_mod by assumption.
  destruct (Z.ltb_spec (a + 1) N), (Z.eqb_spec a 0); slot_cases; lia.
Qed.

Lemma visible_cards_are_neighbours_witness :
  (0 < sp_opacity (slotProps (getSlot 3 0 4) (useLayoutConfig mobile)))%Q <->
  3 = 0 \/ 3 = (0 + 1) mod 4 \/ 3 = (0 - 1) mod 4.
Proof. apply (visible_cards_are_neighbours mobile 3 0 4); lia. Defined.

(** ** Cards from left to right *)

Ltac slot_tests :=
  repeat match goal with
         | |- context [?a =? ?b] => destruct (Z.eqb_spec a b)
         | |- context [?a <? ?b] => destruct (Z.ltb_spec a b)
         end.

(** For every breakpoint a card in a lower slot is never placed to the
    right of a card in a higher slot, the five positions from slot -2 to
    slot 2 are distinct, and the active card is stacked above every
    other card. *)
Theorem slotProps_left_to_right (bp : Breakpoint) (slot1 slot2 : Z) :
  slot1 <= slot2 ->
  let layout := useLayoutConfig bp in
  (sp_x (slotProps slot1 layout) <= sp_x (slotProps slot2 layout))%Q /\
  (slot1 < slot2 -> -2 <= slot1 -> slot2 <= 2 ->
   (sp_x (slotProps slot1 layout) < sp_x (slotProps slot2 layout))%Q) /\
  (slot2 <> 0 -> sp_z (slotProps slot2 layout) < sp_z (slotProps 0 layout)).
Proof.
  intros Hle. cbv zeta. unfold slotProps.
  destruct bp; repeat split; intros; slot_tests;
    subst; cbn; try lia; try reflexivity; try discriminate.
Qed.

Lemma slotProps_left_to_right_witness :
  let layout := useLayoutConfig tablet in
  (sp_x (slotProps (-1) layout) <= sp_x (slotProps 2 layout))%Q /\
  (-1 < 2 -> -2 <= -1 -> 2 <= 2 ->
   (sp_x (slotProps (-1) layout) < sp_x (slotProps 2 layout))%Q) /\
  (2 <> 0 -> sp_z (slotProps 2 layout) < sp_z (slotProps 0 layout)).
Proof. apply (slotProps_left_to_right tablet (-1) 2). lia. Defined.

(** ** A click on a side card *)

(** In every reachable state a click on a card in slot 1 or slot -1 makes
    that card the active one, and a click on any other card leaves the
    active index as it is. *)
Theorem clickCard_selects
  (items : list CardItem) (bp : Breakpoint) (s : Carousel) (i : nat) :
  reachable items bp s -> (i < List.length items)%nat ->
  let slot := getSlot (Z.of_nat i) (activeIndex s) (itemCount items) in
  ((slot = 1 \/ slot = -1) ->
     activeIndex (clickCard items i s) = Z.of_nat i) /\
  (slot <> 1 -> slot <> -1 ->
     activeIndex (clickCard items i s) = activeIndex s).
Proof.
  intros Hreach Hi.
  pose proof (reachable_index_range _ _ _ Hreach) as Ha.
  pose proof (itemCount_pos items) as HN.
  assert (HiN : 0 <= Z.of_nat i < itemCount items).
  { rewrite itemCount_length; [lia|]. destruct items; simpl in *; [lia | discriminate]. }
  cbv zeta. unfold clickCard. cbv zeta.
  rewrite activeIndex_commit. unfold cardOnClick.
  set (N := itemCount items) in *. set (a := activeIndex s) in *.
  split.
  - intros [H1 | H1]; rewrite H1; cbn [Z.eqb Pos.eqb next prev set_activeIndex activeIndex];
      fold a.
    + rewrite next_mod by lia. rewrite succ_mod by lia.
      revert H1. slot_cases; lia.
    + rewrite prev_mod by lia. rewrite pred_mod by lia.
      revert H1. destruct (Z.eqb_spec a 0); slot_cases; lia.
  - intros H1 H2.
    destruct (Z.eqb_spec (getSlot (Z.of_nat i) a N) (-1)); [contradiction|].
    destruct (Z.eqb_spec (getSlot (Z.of_nat i) a N) 1); [contradiction|].
    reflexivity.
Qed.

Lemma clickCard_selects_witness :
  let s := carouselRun defaultCards desktop initial [Next; Next; Next] in
  let slot := getSlot (Z.of_nat 0) (activeIndex s) (itemCount defaultCards) in
  ((slot = 1 \/ slot = -1) ->
     activeIndex (clickCard defaultCards 0 s) = Z.of_nat 0) /\
  (slot <> 1 -> slot <> -1 ->
     activeIndex (clickCard defaultCards 0 s) = activeIndex s).
Proof.
  apply (clickCard_selects defaultCards desktop
           (carouselRun defaultCards desktop initial [Next; Next; Next]) 0).
  - exists [Next; Next; Next]. split; [repeat constructor | reflexivity].
  - simpl. lia.
Defined.

(** ** What is rendered in a reachable state *)






(** The four default cards are rendered, the second one in front after
    one step forward; with the card that [addCard] appends as a fifth one
    the render throws. *)
Example render_default_cards :
  let s := carouselRun defaultCards desktop initial [Next] in
  (exists view, render defaultCards desktop s = Js.Ok view /\
                map fst (cards view) = [-1; 0; 1; 2] /\
                dots view = [false; true; false; false]) /\
  render (Config.cards (local (addCard 1771 (mkPageState defaultConfig []))))
         desktop initial = Js.InvalidElement.
Proof.
  split; [|reflexivity].
  eexists. split; [reflexivity|]. split; reflexivity.
Qed.

(** ** Going round the circle *)

Lemma activeIndex_step_next (side : Q) (N : Z) (s : Carousel) :
  1 <= N -> 0 <= activeIndex s < N ->
  activeIndex (step side N s Next) = (activeIndex s + 1) mod N.
Proof.
  intros HN Ha. unfold step. rewrite activeIndex_commit. simpl.
  apply next_mod; lia.
Qed.

Lemma activeIndex_step_prev (side : Q) (N : Z) (s : Carousel) :
  1 <= N -> 0 <= activeIndex s < N ->
  activeIndex (step side N s Prev) = (activeIndex s - 1) mod N.
Proof.
  intros HN Ha. unfold step. rewrite activeIndex_commit. simpl.
  apply prev_mod; lia.
Qed.

Lemma run_repeat_next (side : Q) (N : Z) (k : nat) :
  1 <= N ->
  forall s, 0 <= activeIndex s < N ->
    activeIndex (run side N s (repeat Next k))
    = (activeIndex s + Z.of_nat k) mod N.
Proof.
  intros HN. induction k as [|k IH]; intros s Ha.
  - simpl. rewrite Z.add_0_r. symmetry. apply Z.mod_small. exact Ha.
  - cbn [repeat run fold_left]. fold (run side N (step side N s Next) (repeat Next k)).
    rewrite IH.
    + rewrite activeIndex_step_next by assumption.
      rewrite Zplus_mod_idemp_l. f_equal. lia.
    + rewrite activeIndex_step_next by assumption.
      apply Z.mod_pos_bound. lia.
Qed.

Lemma run_repeat_prev (side : Q) (N : Z) (k : nat) :
  1 <= N ->
  forall s, 0 <= activeIndex s < N ->
    activeIndex (run side N s (repeat Prev k))
    = (activeIndex s - Z.of_nat k) mod N.
Proof.
  intros HN. induction k as [|k IH]; intros s Ha.
  - simpl. rewrite Z.sub_0_r. symmetry. apply Z.mod_small. exact Ha.
  - cbn [repeat run fold_left]. fold (run side N (step side N s Prev) (repeat Prev k)).
    rewrite IH.
    + rewrite activeIndex_step_prev by assumption.
      rewrite Zminus_mod_idemp_l. f_equal. lia.
    + rewrite activeIndex_step_prev by assumption.
      apply Z.mod_pos_bound. lia.
Qed.

(** In every reachable state, [k] presses of next move the index by [k]
    modulo N and [k] presses of previous move it back by [k] modulo N; so
    previous undoes next, next undoes previous, and N presses of either
    come back to the card they started from. *)
Theorem next_prev_compose
  (items : list CardItem) (bp : Breakpoint) (s : Carousel) (k : nat) :
  reachable items bp s ->
  let N := itemCount items in
  activeIndex (carouselRun items bp s (repeat Next k))
    = (activeIndex s + Z.of_nat k) mod N /\
  activeIndex (carouselRun items bp s (repeat Prev k))
    = (activeIndex s - Z.of_nat k) mod N /\
  activeIndex (carouselRun items bp s [Next; Prev]) = activeIndex s /\
  activeIndex (carouselRun items bp s [Prev; Next]) = activeIndex s /\
  activeIndex (carouselRun items bp s (repeat Next (Z.to_nat N)))
    = activeIndex s /\
  activeIndex (carouselRun items bp s (repeat Prev (Z.to_nat N)))
    = activeIndex s.
Proof.
  intros Hreach N.
  pose proof (reachable_index_range _ _ _ Hreach) as Ha.
  pose proof (itemCount_pos items) as HN. fold N in Ha, HN.
  set (side := sideOffset (useLayoutConfig bp)).
  assert (Hn : forall t, 0 <= activeIndex t < N ->
                         0 <= activeIndex (step side N t Next) < N).
  { intros t Ht. rewrite activeIndex_step_next by assumption.
    apply Z.mod_pos_bound. lia. }
  assert (Hp : forall t, 0 <= activeIndex t < N ->
                         0 <= activeIndex (step side N t Prev) < N).
  { intros t Ht. rewrite activeIndex_step_prev by assumption.
    apply Z.mod_pos_bound. lia. }
  unfold carouselRun. fold side N.
  repeat split.
  - now apply run_repeat_next.
  - now apply run_repeat_prev.
  - cbn [run fold_left].
    rewrite activeIndex_step_prev by auto.
    rewrite activeIndex_step_next by auto.
    rewrite Zminus_mod_idemp_l.
    replace (activeIndex s + 1 - 1) with (activeIndex s) by ring.
    apply Z.mod_small. exact Ha.
  - cbn [run fold_left].
    rewrite activeIndex_step_next by auto.
    rewrite activeIndex_step_prev by auto.
    rewrite Zplus_mod_idemp_l.
    replace (activeIndex s - 1 + 1) with (activeIndex s) by ring.
    apply Z.mod_small. exact Ha.
  - rewrite run_repeat_next by assumption.
    rewrite Z2Nat.id by lia.
    replace (activeIndex s + N) with (activeIndex s + 1 * N) by ring.
    rewrite Z_mod_plus_full. apply Z.mod_small. exact Ha.
  - rewrite run_repeat_prev by assumption.
    rewrite Z2Nat.id by lia.
    replace (activeIndex s - N) with (activeIndex s + (-1) * N) by ring.
    rewrite Z_mod_plus_full. apply Z.mod_small. exact Ha.
Qed.

Lemma next_prev_compose_witness :
  let s := carouselRun defaultCards mobile initial [Paginate 2] in
  let N := itemCount defaultCards in
  activeIndex (carouselRun defaultCards mobile s (repeat Next 7))
    = (activeIndex s + Z.of_nat 7) mod N /\
  activeIndex (carouselRun defaultCards mobile s (repeat Prev 7))
    = (activeIndex s - Z.of_nat 7) mod N /\
  activeIndex (carouselRun defaultCards mobile s [Next; Prev]) = activeIndex s /\
  activeIndex (carouselRun defaultCards mobile s [Prev; Next]) = activeIndex s /\
  activeIndex (carouselRun defaultCards mobile s (repeat Next (Z.to_nat N)))
    = activeIndex s /\
  activeIndex (carouselRun defaultCards mobile s (repeat Prev (Z.to_nat N)))
    = activeIndex s.
Proof.
  apply (next_prev_compose defaultCards mobile
           (carouselRun defaultCards mobile initial [Paginate 2]) 7).
  exists [Paginate 2]. split; [repeat constructor | reflexivity].
Defined.

(** ** Keys while a video plays *)

Lemma keydown_open (N : Z) (key : string) (p : Page) :
  truthy (videoModal p) = true -> String.eqb key "Escape" = false ->
  keydown N key p = p.
Proof.
  intros Ht He. unfold keydown. rewrite Ht, He. destruct p. reflexivity.
Qed.

(** While a video plays, key presses other than Escape change nothing, the
    active index included, and Escape closes the video and nothing else.
    A card whose video id is empty opens no video: after its play button
    the arrow keys still move the carousel. *)
Theorem keys_while_video_plays (N : Z) (p : Page) (keys : list string) :
  truthy (videoModal p) = true ->
  (~ In "Escape"%string keys -> keysdown N keys p = p) /\
  keydown N "Escape" p = mkPage (carousel p) None /\
  (forall item, videoId item = ""%string ->
     activeIndex (carousel (keydown N "ArrowRight" (playVideo item p)))
     = Z.rem (activeIndex (carousel p) + 1) N).
Proof.
  intros Ht. split; [|split].
  - induction keys as [|key keys IH]; intros Hno.
    + reflexivity.
    + simpl. rewrite keydown_open.
      * apply IH. intros Hin. apply Hno. right. exact Hin.
      * exact Ht.
      * apply String.eqb_neq. intros ->. apply Hno. left. reflexivity.
  - unfold keydown. rewrite Ht. reflexivity.
  - intros item Hid.
    assert (Hf : truthy (Some (videoId item)) = false)
      by (rewrite Hid; reflexivity).
    unfold keydown, playVideo. cbn [videoModal carousel].
    rewrite Hf. cbn [carousel]. rewrite activeIndex_commit.
    unfold arrowKeys.
    change (String.eqb "ArrowRight" "ArrowLeft") with false.
    change (String.eqb "ArrowRight" "ArrowRight") with true.
    reflexivity.
Qed.

Lemma keys_while_video_plays_witness :
  let p := mkPage initial (Some "dQw4w9WgXcQ"%string) in
  let keys := ["ArrowLeft"; "ArrowRight"; "a"]%string in
  (~ In "Escape"%string keys -> keysdown 4 keys p = p) /\
  keydown 4 "Escape" p = mkPage (carousel p) None /\
  (forall item, videoId item = ""%string ->
     activeIndex (carousel (keydown 4 "ArrowRight" (playVideo item p)))
     = Z.rem (activeIndex (carousel p) + 1) 4).
Proof.
  apply (keys_while_video_plays 4
           (mkPage initial (Some "dQw4w9WgXcQ"%string))
           ["ArrowLeft"; "ArrowRight"; "a"]%string).
  reflexivity.
Defined.

(** ** The drag offset at rest *)

Lemma step_rest (side : Q) (N : Z) (s : Carousel) (ev : Event) :
  (dragging s = false -> rafId s = None -> dragX s = 0%Q) ->
  dragging (step side N s ev) = false ->
  rafId (step side N s ev) = None ->
  dragX (step side N s ev) = 0%Q.
Proof.
  intros Hrest. unfold step, commit.
  destruct ev; simpl;
    unfold handlePointerDown, handlePointerMove, handlePointerUp,
           animationFrame, tick, next, prev;
    handler_cases; intros Hd Hr; auto; try discriminate;
    try (apply Hrest; [assumption | assumption || congruence]);
    match goal with
    | H : negb (dragging s) = false |- _ => rewrite Hd in H; discriminate H
    end.
Qed.

Lemma run_rest (side : Q) (N : Z) (evs : list Event) :
  forall s,
    (dragging s = false -> rafId s = None -> dragX s = 0%Q) ->
    dragging (run side N s evs) = false ->
    rafId (run side N s evs) = None ->
    dragX (run side N s evs) = 0%Q.
Proof.
  induction evs as [|ev evs IH]; intros s Hs; simpl.
  - exact Hs.
  - apply IH. now apply step_rest.
Qed.

(** In every reachable state in which no pointer is down and no animation
    frame is pending, the drag offset is 0; and whatever event changes the
    active index leaves the drag offset at 0 and no frame pending. *)
Theorem drag_offset_at_rest
  (items : list CardItem) (bp : Breakpoint) (s : Carousel) :
  reachable items bp s ->
  (dragging s = false -> rafId s = None -> dragX s = 0%Q) /\
  (forall ev, activeIndex (carouselStep items bp s ev) <> activeIndex s ->
     dragX (carouselStep items bp s ev) = 0%Q /\
     rafId (carouselStep items bp s ev) = None).
Proof.
  intros [evs [_ ->]]. split.
  - apply run_rest. reflexivity.
  - intros ev. unfold carouselStep, step, commit.
    set (t := carouselRun items bp initial evs).
    destruct (Z.eqb_spec
                (activeIndex (handle (sideOffset (useLayoutConfig bp))
                                (itemCount items) ev t))
                (activeIndex t)) as [E | E]; cbn.
    + intros H. contradiction.
    + intros _. split; reflexivity.
Qed.

Lemma drag_offset_at_rest_witness :
  let s := carouselRun defaultCards mobile initial
             (gesture (pointerAt 0 0) [pointerAt (-300) 16]
                      (pointerAt (-300) 20) ++ [AnimationFrame]) in
  (dragging s = false -> rafId s = None -> dragX s = 0%Q) /\
  (forall ev, activeIndex (carouselStep defaultCards mobile s ev)
              <> activeIndex s ->
     dragX (carouselStep defaultCards mobile s ev) = 0%Q /\
     rafId (carouselStep defaultCards mobile s ev) = None).
Proof.
  apply (drag_offset_at_rest defaultCards mobile
           (carouselRun defaultCards mobile initial
              (gesture (pointerAt 0 0) [pointerAt (-300) 16]
                       (pointerAt (-300) 20) ++ [AnimationFrame]))).
  exists (gesture (pointerAt 0 0) [pointerAt (-300) 16]
                  (pointerAt (-300) 20) ++ [AnimationFrame]).
  split; [repeat constructor | reflexivity].
Defined.

(** ** Lists *)

Lemma last_cons_default (A : Type) (post : list A) :
  forall p m : A, last (p :: post) m = last post p.
Proof.
  induction post as [|q post IH]; intros p m; [reflexivity|].
  change (last (p :: q :: post) m) with (last (q :: post) m).
  rewrite (IH q m), (IH q p). reflexivity.
Qed.

(** ** Coasting: cancellation, bounds and rest *)

Lemma step_frame_idle_state (side : Q) (N : Z) (s : Carousel) :
  rafId s = None ->
  let s' := step side N s AnimationFrame in
  rafId s' = None /\ activeIndex s' = activeIndex s /\ dragX s' = dragX s /\
  dragging s' = dragging s.
Proof.
  intros H. cbv zeta. unfold step. cbn [handle]. unfold animationFrame.
  rewrite H. rewrite commit_same_index by reflexivity.
  repeat split. exact H.
Qed.

Lemma frames_idle_state (side : Q) (N : Z) (k : nat) :
  forall s, rafId s = None ->
    let s' := frames side N k s in
    rafId s' = None /\ activeIndex s' = activeIndex s /\
    dragX s' = dragX s /\ dragging s' = dragging s.
Proof.
  induction k as [|k IH]; intros s H; cbv zeta.
  - repeat split. exact H.
  - rewrite frames_S.
    destruct (step_frame_idle_state side N s H) as (H1 & H2 & H3 & H4).
    destruct (IH _ H1) as (H5 & H6 & H7 & H8).
    repeat split; congruence.
Qed.

(** A pointer-down that starts a drag cancels the pending animation frame:
    however many frames the browser runs afterwards, the index and the
    drag offset stay what they were when the pointer went down. *)
Theorem pointerDown_cancels_coasting
  (items : list CardItem) (bp : Breakpoint) (s : Carousel)
  (down : PointerEvent) (k : nat) :
  startsDrag down ->
  let s1 := carouselStep items bp s (PointerDown down) in
  let s2 := carouselRun items bp s1 (repeat AnimationFrame k) in
  rafId s1 = None /\ rafId s2 = None /\
  activeIndex s2 = activeIndex s /\ dragX s2 = dragX s.
Proof.
  intros Hdown. cbv zeta. unfold carouselStep, carouselRun.
  set (side := sideOffset (useLayoutConfig bp)).
  set (N := itemCount items).
  destruct (step_down_pressed side N s down Hdown) as (_ & _ & _ & Ha & Hr).
  assert (Hx : dragX (step side N s (PointerDown down)) = dragX s).
  { destruct Hdown as [Hc Hb]. unfold step. cbn [handle].
    unfold handlePointerDown. rewrite Hc, Hb. cbn [Z.eqb negb].
    rewrite commit_same_index by reflexivity. reflexivity. }
  destruct (frames_idle_state side N k _ Hr) as (H1 & H2 & H3 & _).
  unfold frames in H1, H2, H3.
  repeat split; congruence.
Qed.

Lemma pointerDown_cancels_coasting_witness :
  let s := carouselRun defaultCards desktop initial
             (gesture (pointerAt 0 0) [pointerAt 30 16] (pointerAt 30 20)
              ++ [AnimationFrame]) in
  let s1 := carouselStep defaultCards desktop s (PointerDown (pointerAt 50 40)) in
  let s2 := carouselRun defaultCards desktop s1 (repeat AnimationFrame 5) in
  rafId s1 = None /\ rafId s2 = None /\
  activeIndex s2 = activeIndex s /\ dragX s2 = dragX s.
Proof.
  apply (pointerDown_cancels_coasting defaultCards desktop
           (carouselRun defaultCards desktop initial
              (gesture (pointerAt 0 0) [pointerAt 30 16] (pointerAt 30 20)
               ++ [AnimationFrame]))
           (pointerAt 50 40) 5).
  split; reflexivity.
Defined.









(** ** A fast release from start to rest *)









(** ** The direction and the size of a snap *)









(** ** The overlay between events *)

Lemma trigger_overlayInv (current : Theme) : overlayInv current (trigger current).
Proof.
  unfold overlayInv, trigger, runEffect, flippedOnce. cbn.
  repeat split; try lia; try constructor.
  exists 1600. repeat split; lia.
Qed.

Ltac overlay_goal :=
  match goal with
  | |- Forall _ [] => constructor
  | |- Forall _ [_] => constructor; [lia | constructor]
  | |- Forall _ (_ ++ [_]) =>
      apply Forall_app; split; [assumption | constructor; [lia | constructor]]
  | |- exists _, Some ?c = Some _ /\ _ => exists c; repeat split; (lia || assumption)
  | H : ?fl = [] |- context [?fl ++ _] => rewrite H; reflexivity
  | |- _ <> _ -> _ => let H := fresh in intros H; (reflexivity || assumption || (exfalso; apply H; reflexivity))
  | _ => lia
  | _ => assumption
  | _ => reflexivity
  | _ => discriminate
  end.

Lemma fireFlip_overlayInv (current : Theme) (o : Overlay) (due : Z) :
  overlayInv current o -> flipTimer o = Some due ->
  overlayInv current (fireFlip due o) /\
  clock (fireFlip due o) = due /\ hasFlipped (fireFlip due o) = true.
Proof.
  intros (Hclk & Htgt & Hth & Hfl & H350 & H1600 & Hm) Hft.
  destruct o as [clk mnt tgt th hf ft ct fl cp].
  unfold overlayInv, flippedOnce in *. cbn in *. subst ft.
  destruct mnt.
  - destruct Hm as (Hcp & c & Hct & Hc & Hc1600 & Hd & Hclkd). subst ct cp tgt.
    unfold fireFlip, rerender, runEffect, cleanupEffect. cbn.
    destruct hf; cbn.
    + repeat split; try (once overlay_goal).
    + subst th fl. destruct current; cbn; repeat split; try (once overlay_goal).
  - destruct Hm as (Hft & _). discriminate Hft.
Qed.

Lemma fireDueFlip_overlayInv (current : Theme) (o : Overlay) (t : Z) :
  overlayInv current o -> clock o <= t ->
  overlayInv current (fireDueFlip t o) /\ clock (fireDueFlip t o) <= t /\
  (flipSettled t (fireDueFlip t o) \/ hasFlipped (fireDueFlip t o) = true).
Proof.
  intros Ho Hclk. unfold fireDueFlip.
  destruct (flipTimer o) as [due|] eqn:Hft.
  - destruct (Z.leb_spec due t) as [Hdue | Hdue].
    + destruct (fireFlip_overlayInv current o due Ho Hft) as (H1 & H2 & H3).
      split; [exact H1|]. split; [lia|]. right. exact H3.
    + split; [exact Ho|]. split; [exact Hclk|]. left.
      unfold flipSettled. rewrite Hft. exact Hdue.
  - split; [exact Ho|]. split; [exact Hclk|]. left.
    unfold flipSettled. rewrite Hft. exact I.
Qed.

Lemma fireDueFlip_settles (current : Theme) (o : Overlay) (t : Z) :
  overlayInv current o -> clock o <= t ->
  flipSettled t o \/ hasFlipped o = true ->
  overlayInv current (fireDueFlip t o) /\ clock (fireDueFlip t o) <= t /\
  flipSettled t (fireDueFlip t o).
Proof.
  intros Ho Hclk Hs.
  destruct (fireDueFlip_overlayInv current o t Ho Hclk) as (H1 & H2 & H3).
  split; [exact H1|]. split; [exact H2|].
  unfold fireDueFlip in *. unfold flipSettled in *.
  destruct (flipTimer o) as [due|] eqn:Hft.
  - destruct (Z.leb_spec due t) as [Hdue | Hdue].
    + destruct Hs as [Hs | Hs]; [lia|].
      unfold fireFlip. rewrite Hs. cbn. exact I.
    + rewrite Hft. exact Hdue.
  - rewrite Hft. exact I.
Qed.

Lemma fireDueComplete_overlayInv (current : Theme) (o : Overlay) (t : Z) :
  overlayInv current o -> clock o <= t -> flipSettled t o ->
  let o' := fireDueComplete t o in
  overlayInv current
    (mkOverlay t (mounted o') (targetTheme o') (theme o') (hasFlipped o')
               (flipTimer o') (cleanupTimer o') (flips o') (completions o')).
Proof.
  intros (Hclk & Htgt & Hth & Hfl & H350 & H1600 & Hm) Ht Hs. cbv zeta.
  destruct o as [clk mnt tgt th hf ft ct fl cp].
  unfold overlayInv, flippedOnce, flipSettled, fireDueComplete in *. cbn in *.
  destruct mnt.
  - destruct Hm as (Hcp & c & Hct & Hc & Hc1600 & Hft). subst ct cp. cbn.
    destruct (Z.leb_spec c t) as [Hcd | Hcd]; cbn.
    + destruct ft as [d|].
      * destruct Hft as [Hd Hclkd]. lia.
      * subst hf. repeat split; try (once overlay_goal).
    + destruct ft as [d|].
      * destruct Hft as [Hd Hclkd]. repeat split; try (once overlay_goal).
      * repeat split; try (once overlay_goal).
  - destruct Hm as (Hft & Hct & Hlen & Hcp). subst ft ct. cbn.
    repeat split; try (once overlay_goal).
Qed.

Lemma elapse_overlayInv (current : Theme) (o : Overlay) (ms : nat) :
  overlayInv current o -> overlayInv current (elapse ms o).
Proof.
  intros Ho. unfold elapse.
  set (t := clock o + Z.of_nat ms).
  assert (Ht : clock o <= t) by (unfold t; lia).
  destruct (fireDueFlip_overlayInv current o t Ho Ht) as (H1 & C1 & S1).
  destruct (fireDueFlip_settles current _ t H1 C1 S1) as (H2 & C2 & S2).
  exact (fireDueComplete_overlayInv current _ t H2 C2 S2).
Qed.

Lemma overlayStep_overlayInv (current : Theme) (o : Overlay)
  (ev : OverlayEvent) :
  overlayInv current o -> overlayInv current (overlayStep o ev).
Proof.
  intros Ho. destruct ev as [ms| |]; cbn [overlayStep].
  - now apply elapse_overlayInv.
  - destruct Ho as (Hclk & Htgt & Hth & Hfl & H350 & H1600 & Hm).
    destruct o as [clk mnt tgt th hf ft ct fl cp].
    unfold overlayInv, flippedOnce in *. cbn in *.
    unfold rerender. cbn.
    destruct mnt; cbn.
    + destruct Hm as (Hcp & c & Hct & Hc & Hc1600 & Hft).
      repeat split; try (once overlay_goal).
    + destruct Hm as (Hft & Hct & Hlen & Hcp).
      repeat split; try (once overlay_goal).
  - destruct Ho as (Hclk & Htgt & Hth & Hfl & H350 & H1600 & Hm).
    destruct o as [clk mnt tgt th hf ft ct fl cp].
    unfold overlayInv, flippedOnce in *. cbn in *.
    destruct mnt; cbn.
    + destruct Hm as (Hcp & _). subst cp.
      repeat split; try (once overlay_goal).
      all: cbn; try lia.
    + destruct Hm as (Hft & Hct & Hlen & Hcp).
      repeat split; try (once overlay_goal).
Qed.

Lemma overlayRun_overlayInv (current : Theme) (evs : list OverlayEvent) :
  forall o, overlayInv current o -> overlayInv current (overlayRun o evs).
Proof.
  induction evs as [|ev evs IH]; intros o Ho; simpl.
  - exact Ho.
  - apply IH. now apply overlayStep_overlayInv.
Qed.

(** Whatever happens to an overlay after its trigger (time passing,
    renders of the parent, an unmount, in any order): the theme is the
    target mode exactly when [setTheme] has been called and the mode at
    the trigger otherwise; [setTheme] is never called before 350ms and
    [onComplete] never before 1600ms; [onComplete] is called at most once,
    and when it has been called the theme has been flipped and the overlay
    is unmounted with no timer left. *)
Theorem overlay_never_early
  (current : Theme) (evs : list OverlayEvent) :
  let o := overlayRun (trigger current) evs in
  theme o = (if hasFlipped o then otherTheme current else current) /\
  (hasFlipped o = true <-> flips o <> []) /\
  Forall (fun t => 350 <= t) (flips o) /\
  Forall (fun t => 1600 <= t) (completions o) /\
  (List.length (completions o) <= 1)%nat /\
  (completions o <> [] ->
     theme o = otherTheme current /\ mounted o = false /\
     flipTimer o = None /\ cleanupTimer o = None).
Proof.
  cbv zeta.
  pose proof (overlayRun_overlayInv current evs _ (trigger_overlayInv current))
    as (_ & _ & Hth & Hfl & H350 & H1600 & Hm).
  set (o := overlayRun (trigger current) evs) in *.
  unfold flippedOnce in Hfl.
  split; [exact Hth|]. split; [|split; [exact H350 | split; [exact H1600|]]].
  - destruct (hasFlipped o).
    + split; [|reflexivity]. intros _ E. rewrite E in Hfl. discriminate.
    + split; [discriminate|]. intros E. contradiction.
  - destruct (mounted o).
    + destruct Hm as [Hcp _]. rewrite Hcp. split; [simpl; lia|].
      intros E. contradiction.
    + destruct Hm as (Hft & Hct & Hlen & Hcp). split; [exact Hlen|].
      intros E. rewrite Hth, (Hcp E). repeat split; assumption.
Qed.

Lemma fireDueFlip_due (t due : Z) (o : Overlay) :
  flipTimer o = Some due -> due <= t -> fireDueFlip t o = fireFlip due o.
Proof.
  intros H Hle. unfold fireDueFlip. rewrite H.
  destruct (Z.leb_spec due t); [reflexivity | lia].
Qed.

Lemma fireDueComplete_due (t due : Z) (o : Overlay) :
  cleanupTimer o = Some due -> due <= t ->
  fireDueComplete t o = fireComplete due o.
Proof.
  intros H Hle. unfold fireDueComplete. rewrite H.
  destruct (Z.leb_spec due t); [reflexivity | lia].
Qed.

Lemma elapse_timers (ms : nat) (o : Overlay) :
  elapse ms o =
  let t := clock o + Z.of_nat ms in
  let o' := fireDueComplete t (fireDueFlip t (fireDueFlip t o)) in
  mkOverlay t (mounted o') (targetTheme o') (theme o') (hasFlipped o')
            (flipTimer o') (cleanupTimer o') (flips o') (completions o').
Proof. reflexivity. Qed.

(** A mounted overlay completes when enough time passes with no render of
    the parent other than the one its own flip causes: 1600ms when the
    theme has been flipped, 1950ms when it has not. *)
Lemma elapse_completes (current : Theme) (o : Overlay) (ms : nat) :
  overlayInv current o -> mounted o = true ->
  (if hasFlipped o then 1600 else 1950) <= Z.of_nat ms ->
  let o' := elapse ms o in
  mounted o' = false /\ List.length (completions o') = 1%nat /\
  theme o' = otherTheme current /\ List.length (flips o') = 1%nat.
Proof.
  intros (Hclk & Htgt & Hth & Hfl & _ & _ & Hm) Hmounted Hms. cbv zeta.
  destruct o as [clk mnt tgt th hf ft ct fl cp].
  unfold flippedOnce in Hfl.
  cbn in Hclk, Htgt, Hth, Hfl, Hm, Hmounted, Hms. subst mnt.
  destruct Hm as (Hcp & c & Hct & Hc & Hc1600 & Hft). subst ct cp tgt.
  rewrite elapse_timers. cbv zeta. cbn [clock].
  set (t := clk + Z.of_nat ms).
  assert (Ht : t = clk + Z.of_nat ms) by reflexivity. clearbody t.
  destruct hf; cbn in Hms.
  - assert (E : fireDueFlip t
                  (fireDueFlip t
                     (mkOverlay clk true (otherTheme current) th true ft
                                (Some c) fl []))
                = mkOverlay (match ft with Some d => d | None => clk end)
                            true (otherTheme current) th true None
                            (Some c) fl []).
    { destruct ft as [d|].
      - destruct Hft as [Hd Hclkd].
        rewrite (fireDueFlip_due t d
                   (mkOverlay clk true (otherTheme current) th true (Some d)
                              (Some c) fl []))
          by (try reflexivity; lia).
        cbn [fireFlip hasFlipped negb].
        now rewrite fireDueFlip_none by reflexivity.
      - now rewrite !fireDueFlip_none by reflexivity. }
    rewrite E.
    rewrite (fireDueComplete_due t c) by (try reflexivity; lia).
    cbn. repeat split; assumption.
  - destruct ft as [d|]; [|discriminate Hft].
    destruct Hft as [Hd Hclkd]. subst th fl.
    assert (E : fireDueFlip t
                  (fireDueFlip t
                     (mkOverlay clk true (otherTheme current) current false
                                (Some d) (Some c) [] []))
                = mkOverlay (d + 350) true (otherTheme current)
                            (otherTheme current) true None
                            (Some (d + 1600)) [d] []).
    { rewrite (fireDueFlip_due t d
                 (mkOverlay clk true (otherTheme current) current false
                            (Some d) (Some c) [] []))
        by (try reflexivity; lia).
      assert (E : fireFlip d
                    (mkOverlay clk true (otherTheme current) current false
                               (Some d) (Some c) [] [])
                  = mkOverlay d true (otherTheme current) (otherTheme current)
                              true (Some (d + 350)) (Some (d + 1600)) [d] [])
        by (destruct current; reflexivity).
      rewrite E.
      rewrite (fireDueFlip_due t (d + 350)) by (try reflexivity; lia).
      reflexivity. }
    rewrite E.
    rewrite (fireDueComplete_due t (d + 1600)) by (try reflexivity; lia).
    cbn. repeat split.
Qed.

(** When the theme has not been flipped yet, the overlay is still mounted
    1600ms later. *)
Lemma elapse_still_mounted (current : Theme) (o : Overlay) (ms : nat) :
  overlayInv current o -> mounted o = true -> hasFlipped o = false ->
  Z.of_nat ms <= 1600 ->
  mounted (elapse ms o) = true.
Proof.
  intros (Hclk & Htgt & Hth & Hfl & _ & _ & Hm) Hmounted Hhf Hms.
  destruct o as [clk mnt tgt th hf ft ct fl cp].
  unfold flippedOnce in Hfl.
  cbn in Hclk, Htgt, Hth, Hfl, Hm, Hmounted, Hhf. subst mnt hf.
  destruct Hm as (Hcp & c & Hct & Hc & Hc1600 & Hft). subst ct cp tgt.
  destruct ft as [d|]; [|discriminate Hft].
  destruct Hft as [Hd Hclkd]. subst th fl.
  rewrite elapse_timers. cbv zeta. cbn [clock mounted].
  set (t := clk + Z.of_nat ms).
  assert (Ht : t = clk + Z.of_nat ms) by reflexivity. clearbody t.
  set (o0 := mkOverlay clk true (otherTheme current) current false
                       (Some d) (Some c) [] []).
  destruct (Z.le_gt_cases d t) as [H1 | H1].
  - rewrite (fireDueFlip_due t d o0) by (try reflexivity; lia).
    assert (E : fireFlip d o0
                = mkOverlay d true (otherTheme current) (otherTheme current)
                            true (Some (d + 350)) (Some (d + 1600)) [d] [])
      by (destruct current; reflexivity).
    rewrite E.
    destruct (Z.le_gt_cases (d + 350) t) as [H2 | H2].
    + rewrite (fireDueFlip_due t (d + 350)) by (try reflexivity; lia).
      cbn [fireFlip hasFlipped negb].
      rewrite (fireDueComplete_later t (d + 1600)) by (try reflexivity; lia).
      reflexivity.
    + rewrite (fireDueFlip_later t (d + 350)) by (try reflexivity; lia).
      rewrite (fireDueComplete_later t (d + 1600)) by (try reflexivity; lia).
      reflexivity.
  - rewrite (fireDueFlip_later t d o0) by (try reflexivity; lia).
    rewrite (fireDueFlip_later t d o0) by (try reflexivity; lia).
    rewrite (fireDueComplete_later t c) by (try reflexivity; lia).
    reflexivity.
Qed.

(** An overlay that is still mounted completes when no render of the
    parent other than the one its own flip causes comes in between: within
    1600ms when the theme has been flipped already, within 1950ms when it
    has not, and then 1600ms are not enough. [onComplete] has then been
    called once, the theme is the target mode and the overlay is
    unmounted. *)
Theorem overlay_completes_when_quiet
  (current : Theme) (evs : list OverlayEvent) (ms : nat) :
  mounted (overlayRun (trigger current) evs) = true ->
  (if hasFlipped (overlayRun (trigger current) evs) then 1600 else 1950)
  <= Z.of_nat ms ->
  let o := overlayRun (trigger current) (evs ++ [Elapse ms]) in
  mounted o = false /\ List.length (completions o) = 1%nat /\
  theme o = otherTheme current /\ List.length (flips o) = 1%nat /\
  (hasFlipped (overlayRun (trigger current) evs) = false ->
   mounted (overlayRun (trigger current) (evs ++ [Elapse 1600])) = true).
Proof.
  intros Hmounted Hms. cbv zeta.
  unfold overlayRun. rewrite !fold_left_app. cbn [fold_left overlayStep].
  fold (overlayRun (trigger current) evs).
  pose proof (overlayRun_overlayInv current evs _ (trigger_overlayInv current))
    as Hinv.
  destruct (elapse_completes current _ ms Hinv Hmounted Hms)
    as (H1 & H2 & H3 & H4).
  repeat split; try assumption.
  intros Hhf. apply (elapse_still_mounted current); try assumption.
  vm_compute. discriminate.
Qed.

Lemma overlay_completes_when_quiet_witness :
  let evs := [Elapse 200; Rerender; Elapse 100] in
  let o := overlayRun (trigger dark) (evs ++ [Elapse 1950]) in
  mounted o = false /\ List.length (completions o) = 1%nat /\
  theme o = otherTheme dark /\ List.length (flips o) = 1%nat /\
  (hasFlipped (overlayRun (trigger dark) evs) = false ->
   mounted (overlayRun (trigger dark) (evs ++ [Elapse 1600])) = true).
Proof.
  apply (overlay_completes_when_quiet dark [Elapse 200; Rerender; Elapse 100]
           1950).
  - reflexivity.
  - vm_compute. discriminate.
Defined.

(** ** Layout *)

(** For every breakpoint and every drag offset, the cards of the five
    positions from slot -2 to slot 2 do not overlap: the right edge of a
    card in a lower slot is left of the left edge of a card in a higher
    slot. *)
Theorem cards_do_not_overlap
  (bp : Breakpoint) (slot1 slot2 : Z) (dragX : Q) :
  -2 <= slot1 -> slot1 < slot2 -> slot2 <= 2 ->
  (cardRight (useLayoutConfig bp) slot1 dragX
   < cardLeft (useLayoutConfig bp) slot2 dragX)%Q.
Proof.
  intros H1 H12 H2.
  assert (Hgap : (cardRight (useLayoutConfig bp) slot1 0
                  < cardLeft (useLayoutConfig bp) slot2 0)%Q).
  { assert (Hs1 : slot1 = -2 \/ slot1 = -1 \/ slot1 = 0 \/ slot1 = 1) by lia.
    assert (Hs2 : slot2 = -1 \/ slot2 = 0 \/ slot2 = 1 \/ slot2 = 2) by lia.
    destruct bp;
      destruct Hs1 as [-> | [-> | [-> | ->]]];
      destruct Hs2 as [-> | [-> | [-> | ->]]];
      try lia; reflexivity. }
  unfold cardRight, cardLeft in *. lra.
Qed.

Lemma cards_do_not_overlap_witness :
  (cardRight (useLayoutConfig desktop) (-1) 57
   < cardLeft (useLayoutConfig desktop) 0 57)%Q.
Proof. apply (cards_do_not_overlap desktop (-1) 0 57); lia. Defined.

Lemma getBreakpoint_cases (w : Q) :
  (w < 640 /\ getBreakpoint w = mobile)%Q \/
  (640 <= w /\ w < 1180 /\ getBreakpoint w = tablet)%Q \/
  (1180 <= w /\ getBreakpoint w = desktop)%Q.
Proof.
  unfold getBreakpoint.
  destruct (Js.lt w 640) eqn:E1.
  - apply lt_true in E1. left. split; [exact E1 | reflexivity].
  - apply lt_false in E1. destruct (Js.lt w 1180) eqn:E2.
    + apply lt_true in E2. right. left. repeat split; assumption.
    + apply lt_false in E2. right. right. split; [exact E2 | reflexivity].
Qed.

(** A wider window never gets a smaller layout: the card's width and
    height, the side and far offsets and the side and hidden scales do not
    decrease when the window's width grows. *)
Theorem layout_grows_with_width (w1 w2 : Q) :
  (w1 <= w2)%Q ->
  let l1 := useLayoutConfig (getBreakpoint w1) in
  let l2 := useLayoutConfig (getBreakpoint w2) in
  (cardW l1 <= cardW l2 /\ cardH l1 <= cardH l2 /\
   sideOffset l1 <= sideOffset l2 /\ farOffset l1 <= farOffset l2 /\
   sideScale l1 <= sideScale l2 /\ hiddenScale l1 <= hiddenScale l2)%Q.
Proof.
  intros Hw. cbv zeta.
  destruct (getBreakpoint_cases w1) as [[H1 ->] | [(H1 & H1' & ->) | [H1 ->]]];
    destruct (getBreakpoint_cases w2) as [[H2 ->] | [(H2 & H2' & ->) | [H2 ->]]];
    try (exfalso; lra);
    repeat split; discriminate.
Qed.

Lemma layout_grows_with_width_witness :
  let l1 := useLayoutConfig (getBreakpoint 600) in
  let l2 := useLayoutConfig (getBreakpoint 1180) in
  (cardW l1 <= cardW l2 /\ cardH l1 <= cardH l2 /\
   sideOffset l1 <= sideOffset l2 /\ farOffset l1 <= farOffset l2 /\
   sideScale l1 <= sideScale l2 /\ hiddenScale l1 <= hiddenScale l2)%Q.
Proof. apply (layout_grows_with_width 600 1180). discriminate. Defined.

(** ** Decimal indices in keys *)

Lemma parseDigits_uint (d : Decimal.uint) :
  forall acc : nat,
    parseDigits (DecimalString.NilEmpty.string_of_uint d) (Some acc)
    = Some (Nat.of_uint_acc d acc).
Proof.
  induction d; intros acc; cbn [DecimalString.NilEmpty.string_of_uint
                                  parseDigits Nat.of_uint_acc];
    try reflexivity;
    match goal with
    | |- context [digitValue ?c] =>
        let v := eval vm_compute in (digitValue c) in
        change (digitValue c) with v
    end;
    cbv iota beta; rewrite IHd; f_equal; f_equal;
    rewrite Nat.tail_mul_spec; lia.
Qed.

Lemma to_uint_nonnil (n : nat) : Nat.to_uint n <> Decimal.Nil.
Proof.
  pose proof (DecimalNat.Unsigned.to_of (Nat.to_uint n)) as H.
  rewrite DecimalNat.Unsigned.of_to in H. rewrite H.
  apply DecimalFacts.unorm_nonnil.
Qed.

(** What [parseInt] reads in the decimal digits of [n] is [n]. *)
Lemma parseInt_decimal (n : nat) : parseInt (decimal n) = Some (Z.of_nat n).
Proof.
  unfold decimal.
  pose proof (to_uint_nonnil n) as Hnn.
  pose proof (DecimalNat.Unsigned.of_to n) as Hof.
  unfold Nat.of_uint in Hof.
  destruct (Nat.to_uint n) as [|d|d|d|d|d|d|d|d|d|d]; [contradiction|..];
    unfold parseInt;
    cbn [DecimalString.NilEmpty.string_of_uint trimStart];
    match goal with
    | |- context [isWhiteSpace ?c] =>
        let v := eval vm_compute in (isWhiteSpace c) in
        change (isWhiteSpace c) with v
    end;
    cbv iota beta; cbn [parseDigits];
    match goal with
    | |- context [digitValue ?c] =>
        let v := eval vm_compute in (digitValue c) in
        change (digitValue c) with v
    end;
    cbv iota beta; rewrite parseDigits_uint;
    cbn [Nat.of_uint_acc] in Hof; rewrite Nat.tail_mul_spec in Hof;
    rewrite Z.mul_1_l; f_equal; f_equal; rewrite <- Hof; f_equal.
Qed.

Lemma decimal_injective (i j : nat) : decimal i = decimal j -> i = j.
Proof.
  intros H. pose proof (parseInt_decimal i) as Hi.
  rewrite H, parseInt_decimal in Hi. injection Hi as Hi. lia.
Qed.

Lemma cardBgKey_injective (i j : nat) : cardBgKey i = cardBgKey j -> i = j.
Proof.
  unfold cardBgKey. intros H. apply decimal_injective.
  cbn in H. injection H as H. exact H.
Qed.

Lemma prefix_app (p s : string) : String.prefix p (p ++ s) = true.
Proof.
  induction p as [|a p IH]; simpl.
  - destruct s; reflexivity.
  - destruct (ascii_dec a a); [exact IH | contradiction].
Qed.

Lemma skipString_app (p s : string) : skipString (String.length p) (p ++ s) = s.
Proof.
  induction p as [|a p IH]; simpl.
  - destruct s; reflexivity.
  - exact IH.
Qed.

Lemma prefix_split (p s : string) :
  String.prefix p s = true -> s = (p ++ skipString (String.length p) s)%string.
Proof.
  revert s. induction p as [|a p IH]; intros s H; simpl.
  - destruct s; reflexivity.
  - destruct s as [|b s]; simpl in H; [discriminate|].
    destruct (ascii_dec a b) as [-> | _]; [|discriminate].
    simpl. f_equal. now apply IH.
Qed.

Lemma removeFirst_prefix (p s : string) :
  String.prefix p s = true -> removeFirst p s = skipString (String.length p) s.
Proof.
  intros H. destruct s as [|b s].
  - destruct p; reflexivity.
  - cbn [removeFirst]. rewrite H. reflexivity.
Qed.

Lemma removeFirst_cardBgKey (idx : nat) :
  removeFirst "card_bg_" (cardBgKey idx) = decimal idx.
Proof.
  unfold cardBgKey. rewrite removeFirst_prefix by apply prefix_app.
  apply skipString_app.
Qed.

(** ** An uploaded image and its card *)

Lemma setBgAt_length (idx : nat) (url : string) (cs : list CardItem) :
  List.length (setBgAt idx url cs) = List.length cs.
Proof.
  revert idx. induction cs as [|c cs IH]; intros idx; [destruct idx; reflexivity|].
  destruct idx; simpl; [reflexivity|]. now rewrite IH.
Qed.

Lemma setBgAt_nth_error (idx : nat) (url : string) (cs : list CardItem) :
  forall j,
    nth_error (setBgAt idx url cs) j =
    if (j =? idx)%nat then option_map (withBg url) (nth_error cs idx)
    else nth_error cs j.
Proof.
  revert idx. induction cs as [|c cs IH]; intros idx j.
  - assert (Hn : setBgAt idx url [] = []) by (destruct idx; reflexivity).
    rewrite Hn. destruct (j =? idx)%nat; destruct idx, j; reflexivity.
  - destruct idx as [|idx]; destruct j as [|j]; simpl; try reflexivity.
    rewrite IH. reflexivity.
Qed.

Lemma setBgAt_cardText (idx : nat) (url : string) (cs : list CardItem) :
  map cardText (setBgAt idx url cs) = map cardText cs.
Proof.
  revert idx. induction cs as [|c cs IH]; intros idx; [destruct idx; reflexivity|].
  destruct idx; simpl; [reflexivity|]. now rewrite IH.
Qed.

Lemma applyUpload_cardBgKey (idx : nat) (filename : string)
  (config : Config.SiteConfig) :
  applyUpload (cardBgKey idx) filename config =
  Config.set_cards
    (setBgAt idx ("/uploads/" ++ filename)%string (Config.cards config))
    config.
Proof.
  unfold applyUpload.
  assert (Hl : (cardBgKey idx =? "logoImg")%string = false).
  { apply String.eqb_neq. unfold cardBgKey. cbn. discriminate. }
  rewrite Hl. unfold startsWith. unfold cardBgKey at 1.
  rewrite prefix_app. rewrite removeFirst_cardBgKey, parseInt_decimal.
  destruct (Z.ltb_spec (Z.of_nat idx) 0) as [H | _]; [lia|].
  rewrite Nat2Z.id. reflexivity.
Qed.

(** The key the page makes for the card at index [idx] is read back by
    the middleware as [idx]: the uploaded file becomes the background of
    that card and of no other, no card is added or removed, and the logo
    is left alone; when there is no card at [idx] the cards are
    unchanged. *)
Theorem upload_lands_on_its_card
  (idx : nat) (filename : string) (config : Config.SiteConfig) :
  let url := ("/uploads/" ++ filename)%string in
  let config' := applyUpload (cardBgKey idx) filename config in
  parseInt (removeFirst "card_bg_" (cardBgKey idx)) = Some (Z.of_nat idx) /\
  Config.logoImg config' = Config.logoImg config /\
  List.length (Config.cards config') = List.length (Config.cards config) /\
  (forall j, nth_error (Config.cards config') j =
             if (j =? idx)%nat
             then option_map (withBg url) (nth_error (Config.cards config) idx)
             else nth_error (Config.cards config) j) /\
  ((List.length (Config.cards config) <= idx)%nat ->
   Config.cards config' = Config.cards config).
Proof.
  cbv zeta. rewrite applyUpload_cardBgKey. cbn [Config.set_cards Config.cards
                                                Config.logoImg].
  split; [now rewrite removeFirst_cardBgKey, parseInt_decimal|].
  split; [reflexivity|]. split; [apply setBgAt_length|].
  split; [apply setBgAt_nth_error|].
  generalize (Config.cards config). clear.
  intros cs. revert idx. induction cs as [|c cs IH]; intros idx H.
  - destruct idx; reflexivity.
  - destruct idx; simpl in *; [lia|]. f_equal. apply IH. lia.
Qed.

Lemma applyUpload_keeps (key filename : string) (config : Config.SiteConfig) :
  let config' := applyUpload key filename config in
  map cardText (Config.cards config') = map cardText (Config.cards config) /\
  Config.navTitle config' = Config.navTitle config /\
  Config.menuLinks config' = Config.menuLinks config /\
  Config.heroTitle config' = Config.heroTitle config /\
  Config.heroSubtitle config' = Config.heroSubtitle config /\
  Config.heroText config' = Config.heroText config /\
  Config.pruebameText config' = Config.pruebameText config /\
  Config.pruebameUrl config' = Config.pruebameUrl config /\
  Config.footerText config' = Config.footerText config /\
  Config.footerLinks config' = Config.footerLinks config.
Proof.
  cbv zeta. unfold applyUpload.
  destruct (key =? "logoImg")%string; [repeat split|].
  destruct (startsWith "card_bg_" key); [|repeat split].
  destruct (parseInt (removeFirst "card_bg_" key)) as [idx|]; [|repeat split].
  destruct (idx <? 0); [repeat split|].
  cbn. split; [apply setBgAt_cardText | repeat split].
Qed.

Lemma sameButImages_refl (config : Config.SiteConfig) :
  sameButImages config config.
Proof. repeat split. Qed.

Lemma sameButImages_trans (c1 c2 c3 : Config.SiteConfig) :
  sameButImages c1 c2 -> sameButImages c2 c3 -> sameButImages c1 c3.
Proof.
  intros (K0 & K1 & K2 & K3 & K4 & K5 & K6 & K7 & K8 & K9)
         (H0 & H1 & H2 & H3 & H4 & H5 & H6 & H7 & H8 & H9).
  repeat split; congruence.
Qed.

Lemma processImages_keeps (disk : Disk) (now : nat -> nat) (images : Obj) :
  forall (i : nat) (config : Config.SiteConfig)
         (files : list (string * string)),
    let e := processImages disk now i images config files in
    (List.length (filesOf e) <= List.length files + List.length images)%nat /\
    (Forall (fun f => writable disk ("uploads/" ++ fst f)%string = true) files ->
     Forall (fun f => writable disk ("uploads/" ++ fst f)%string = true)
            (filesOf e)) /\
    match e with
    | Completed config' _ => sameButImages config config'
    | Threw _ => exists path, writable disk path = false
    end.
Proof.
  induction images as [|[key data] images IH]; intros i config files.
  - cbn. split; [lia|]. split; [trivial|]. apply sameButImages_refl.
  - cbn [processImages].
    destruct (startsWith "data:image" data);
      [destruct (matchDataUrl data) as [[subtype payload]|]|].
    + destruct (writable disk
                  ("uploads/" ++ uploadName key (now i) (extensionOf subtype)))
        eqn:Hw.
      * specialize (IH (S i)
                       (applyUpload key
                          (uploadName key (now i) (extensionOf subtype)) config)
                       (files ++ [(uploadName key (now i) (extensionOf subtype),
                                   payload)])).
        cbv zeta in IH. destruct IH as (Hl & Hf & He).
        rewrite length_app in Hl. cbn in Hl.
        split; [cbn; lia|]. split.
        -- intros Hall. apply Hf. apply Forall_app. split; [exact Hall|].
           constructor; [exact Hw | constructor].
        -- destruct (processImages disk now (S i) images _ _); [|exact He].
           apply (sameButImages_trans _ _ _
                    (applyUpload_keeps key _ config) He).
      * cbn. split; [lia|]. split; [trivial|]. eexists. exact Hw.
    + specialize (IH (S i) config files). cbv zeta in IH.
      destruct IH as (Hl & Hf & He).
      split; [cbn; lia|]. split; assumption.
    + specialize (IH (S i) config files). cbv zeta in IH.
      destruct IH as (Hl & Hf & He).
      split; [cbn; lia|]. split; assumption.
Qed.

Lemma processImages_all_writable (disk : Disk) (now : nat -> nat)
  (images : Obj) :
  (forall path, writable disk path = true) ->
  forall (i : nat) (config : Config.SiteConfig)
         (files : list (string * string)),
    exists config' files',
      processImages disk now i images config files = Completed config' files'.
Proof.
  intros Hall.
  induction images as [|[key data] images IH]; intros i config files.
  - eexists. eexists. reflexivity.
  - cbn [processImages].
    destruct (startsWith "data:image" data);
      [destruct (matchDataUrl data) as [[subtype payload]|]|];
      try apply IH.
    rewrite Hall. apply IH.
Qed.

(** Whatever images a save carries and whatever the disk does: the
    middleware writes at most one file per image, each under a name the
    disk accepted. When it writes [config.json] it answers with status 200
    and what it writes has the same cards in the same order with the same
    id, title, description, call to action and video, and the same texts
    and links: only the logo and the backgrounds of cards can differ.
    Otherwise it answers with status 500, some write having failed; the
    image files written before the failure stay. On a disk that accepts
    every write it answers with status 200, and with no image it writes
    the configuration it was sent. *)
Theorem saveConfig_changes_images_only
  (disk : Disk) (now : nat -> nat) (images : Obj)
  (config : Config.SiteConfig) :
  let saved := saveConfig disk now images config in
  (List.length (uploaded saved) <= List.length images)%nat /\
  Forall (fun f => writable disk ("uploads/" ++ fst f)%string = true)
         (uploaded saved) /\
  match configJson saved with
  | Some config' =>
      statusCode saved = 200 /\
      List.length (Config.cards config') = List.length (Config.cards config) /\
      sameButImages config config'
  | None =>
      statusCode saved = 500 /\
      (uploadsReady disk = false \/ exists path, writable disk path = false)
  end /\
  ((forall path, writable disk path = true) -> uploadsReady disk = true ->
   statusCode saved = 200 /\ configJson saved <> None) /\
  (uploadsReady disk = true -> writable disk "config.json" = true ->
   saveConfig disk now [] config = mkSaved 200 [] (Some config)).
Proof.
  cbv zeta. unfold saveConfig.
  destruct (uploadsReady disk) eqn:Hready.
  - pose proof (processImages_keeps disk now images 0 config []) as H.
    cbv zeta in H. destruct H as (Hl & Hf & He).
    specialize (Hf (Forall_nil _)).
    destruct (processImages disk now 0 images config []) as [config' files|files]
      eqn:Hloop; cbn [filesOf] in *.
    + destruct (writable disk "config.json") eqn:Hc; cbn.
      * split; [exact Hl|]. split; [exact Hf|]. split; [|split].
        -- split; [reflexivity|]. split; [|exact He].
           destruct He as (H0 & _).
           apply (f_equal (@List.length _)) in H0.
           now rewrite !length_map in H0.
        -- intros _ _. split; [reflexivity | discriminate].
        -- intros _ _. reflexivity.
      * split; [exact Hl|]. split; [exact Hf|]. split; [|split].
        -- split; [reflexivity|]. right. eexists. exact Hc.
        -- intros Hall. rewrite Hall in Hc. discriminate Hc.
        -- intros _ Hc'. discriminate Hc'.
    + cbn. split; [exact Hl|]. split; [exact Hf|]. split; [|split].
      * split; [reflexivity|]. right. exact He.
      * intros Hall _.
        destruct (processImages_all_writable disk now images Hall 0 config [])
          as (c' & f' & E). congruence.
      * intros _ Hc. rewrite Hc. reflexivity.
  - cbn. split; [lia|]. split; [constructor|]. split; [|split].
    + split; [reflexivity|]. left. reflexivity.
    + intros _ H. discriminate H.
    + intros H. discriminate H.
Qed.

(** ** Data URLs *)

Lemma spanSubtype_split (s : string) :
  let '(t, rest) := spanSubtype s in
  s = (t ++ rest)%string /\ allChars isSubtypeChar t = true /\
  match rest with
  | String c _ => isSubtypeChar c = false
  | EmptyString => True
  end.
Proof.
  induction s as [|c s IH]; simpl.
  - repeat split.
  - destruct (isSubtypeChar c) eqn:E.
    + destruct (spanSubtype s) as [t rest]. destruct IH as (H1 & H2 & H3).
      simpl. rewrite E, H2. repeat split; [now f_equal | exact H3].
    + repeat split. exact E.
Qed.

Lemma spanSubtype_app (t rest : string) :
  allChars isSubtypeChar t = true ->
  match rest with
  | String c _ => isSubtypeChar c = false
  | EmptyString => True
  end ->
  spanSubtype (t ++ rest) = (t, rest).
Proof.
  intros Ht Hrest. induction t as [|c t IH]; simpl in *.
  - destruct rest as [|c rest]; [reflexivity|]. simpl. now rewrite Hrest.
  - apply andb_true_iff in Ht as [Hc Ht]. rewrite Hc, (IH Ht). reflexivity.
Qed.

(** The middleware's pattern matches exactly the strings
    [data:image/<subtype>;base64,<data>] with a non-empty subtype made of
    letters, [-], [+] and [/], and non-empty data with no line break; the
    two groups are the subtype and the data. *)
Theorem matchDataUrl_exact (s subtype data : string) :
  matchDataUrl s = Some (subtype, data) <->
  s = ("data:image/" ++ subtype ++ ";base64," ++ data)%string /\
  subtype <> ""%string /\ allChars isSubtypeChar subtype = true /\
  data <> ""%string /\
  allChars (fun c => negb (isLineTerminator c)) data = true.
Proof.
  unfold matchDataUrl. split.
  - intros H.
    destruct (String.prefix "data:image/" s) eqn:Hp; [|discriminate].
    apply prefix_split in Hp.
    change (String.length "data:image/") with 11%nat in Hp.
    pose proof (spanSubtype_split (skipString 11 s)) as Hs.
    destruct (spanSubtype (skipString 11 s)) as [t rest].
    destruct Hs as (Hs1 & Hs2 & _).
    destruct (String.eqb_spec t "") as [|Ht]; [discriminate|].
    destruct (String.prefix ";base64," rest) eqn:Hb; [|discriminate].
    apply prefix_split in Hb.
    change (String.length ";base64,") with 8%nat in Hb.
    destruct (String.eqb_spec (skipString 8 rest) "") as [|Hd]; [discriminate|].
    destruct (allChars (fun c => negb (isLineTerminator c))
                (skipString 8 rest)) eqn:Hl; [|discriminate].
    injection H as <- <-.
    repeat split; try assumption.
    rewrite Hp at 1. rewrite Hs1 at 1. rewrite Hb at 1. reflexivity.
  - intros (-> & Hne & Hc & Hdne & Hl).
    rewrite prefix_app.
    change 11%nat with (String.length "data:image/").
    rewrite skipString_app.
    rewrite spanSubtype_app by (assumption || reflexivity).
    destruct (String.eqb_spec subtype "") as [|_]; [contradiction|].
    rewrite prefix_app.
    change 8%nat with (String.length ";base64,").
    rewrite skipString_app.
    destruct (String.eqb_spec data "") as [|_]; [contradiction|].
    rewrite Hl. reflexivity.
Qed.

(** ** Removing a card *)

Lemma filter_index_all (target : Z) (cards : list CardItem) :
  forall k,
    target < Z.of_nat k ->
    map snd (filter (fun p : Z * CardItem => negb (fst p =? target))
               (combine (map Z.of_nat (seq k (List.length cards))) cards))
    = cards.
Proof.
  induction cards as [|c cs IH]; intros k Hk; [reflexivity|].
  simpl. destruct (Z.eqb_spec (Z.of_nat k) target) as [E | _]; [lia|].
  simpl. f_equal. apply IH. lia.
Qed.

Lemma filterOutIndex_from (cards : list CardItem) :
  forall k index,
    map snd (filter (fun p : Z * CardItem =>
                       negb (fst p =? Z.of_nat (k + index)))
               (combine (map Z.of_nat (seq k (List.length cards))) cards))
    = firstn index cards ++ skipn (S index) cards.
Proof.
  induction cards as [|c cs IH]; intros k index.
  - destruct index; reflexivity.
  - simpl. destruct index as [|index].
    + rewrite Nat.add_0_r, Z.eqb_refl. simpl.
      apply filter_index_all. lia.
    + destruct (Z.eqb_spec (Z.of_nat k) (Z.of_nat (k + S index))) as [E | _];
        [lia|].
      simpl. f_equal.
      replace (k + S index)%nat with (S k + index)%nat by lia.
      apply IH.
Qed.

Lemma filterOutIndex_spec (index : nat) (cards : list CardItem) :
  filterOutIndex index cards = firstn index cards ++ skipn (S index) cards.
Proof.
  unfold filterOutIndex, indexed.
  apply (filterOutIndex_from cards 0 index).
Qed.

Lemma objGet_objDelete (k k' : string) (o : Obj) :
  objGet k (objDelete k' o) =
  if (k =? k')%string then None else objGet k o.
Proof.
  unfold objGet, objDelete.
  induction o as [|[key v] o IH]; simpl.
  - destruct (k =? k')%string; reflexivity.
  - destruct (String.eqb_spec key k') as [-> | Hk']; simpl.
    + rewrite IH. rewrite (String.eqb_sym k' k).
      destruct (String.eqb_spec k k'); reflexivity.
    + destruct (String.eqb_spec key k) as [-> | Hk]; simpl.
      * destruct (String.eqb_spec k k'); [contradiction | reflexivity].
      * exact IH.
Qed.

(** [removeCard] takes out the card at the index and keeps the others in
    their order, so an index outside the list removes nothing; it forgets
    the image picked for that index and keeps the images picked for the
    other indices under their keys; and removing the card that [addCard]
    has just appended gives back the cards there were. *)
Theorem removeCard_exact (index : nat) (now : Z) (st : PageState) :
  let cards := Config.cards (local st) in
  let st' := removeCard index st in
  Config.cards (local st') = firstn index cards ++ skipn (S index) cards /\
  ((List.length cards <= index)%nat -> Config.cards (local st') = cards) /\
  ((index < List.length cards)%nat ->
   S (List.length (Config.cards (local st'))) = List.length cards) /\
  objGet (cardBgKey index) (pendingImages st') = None /\
  (forall j, j <> index ->
     objGet (cardBgKey j) (pendingImages st')
     = objGet (cardBgKey j) (pendingImages st)) /\
  Config.cards (local (removeCard (List.length cards) (addCard now st)))
  = cards.
Proof.
  cbv zeta. unfold removeCard, addCard.
  cbn [local pendingImages Config.cards Config.set_cards].
  rewrite !filterOutIndex_spec.
  split; [reflexivity|]. split; [|split; [|split; [|split]]].
  - intros H. rewrite firstn_all2 by lia. rewrite skipn_all2 by lia.
    apply app_nil_r.
  - intros H. rewrite length_app, length_firstn, length_skipn. lia.
  - rewrite objGet_objDelete, String.eqb_refl. reflexivity.
  - intros j Hj. rewrite objGet_objDelete.
    destruct (String.eqb_spec (cardBgKey j) (cardBgKey index)) as [E | _];
      [|reflexivity].
    apply cardBgKey_injective in E. contradiction.
  - rewrite firstn_app, Nat.sub_diag, firstn_all. cbn [firstn].
    rewrite skipn_all2 by (rewrite length_app; cbn; lia).
    now rewrite !app_nil_r.
Qed.

Lemma nth_error_removed (cs : list CardItem) :
  forall i j, (i <= j)%nat ->
    nth_error (firstn i cs ++ skipn (S i) cs) j = nth_error cs (S j).
Proof.
  induction cs as [|c cs IH]; intros i j Hij.
  - destruct i, j; reflexivity.
  - destruct i as [|i].
    + reflexivity.
    + destruct j as [|j]; [lia|]. simpl. apply IH. lia.
Qed.

(** The keys of the pending images are not renumbered when a card is
    removed: after the card at index [i] is removed, the image picked for
    the card at a later index [j] is still kept under the key of [j], and
    on save it becomes the background of the card that was at index
    [j + 1]. *)
Theorem removeCard_keeps_later_keys
  (i j : nat) (filename : string) (st : PageState) :
  (i < j)%nat ->
  let st' := removeCard i st in
  objGet (cardBgKey j) (pendingImages st')
  = objGet (cardBgKey j) (pendingImages st) /\
  nth_error (Config.cards (applyUpload (cardBgKey j) filename (local st'))) j
  = option_map (withBg ("/uploads/" ++ filename)%string)
               (nth_error (Config.cards (local st)) (S j)).
Proof.
  intros Hij. cbv zeta. split.
  - unfold removeCard. cbn [pendingImages]. rewrite objGet_objDelete.
    destruct (String.eqb_spec (cardBgKey j) (cardBgKey i)) as [E | _];
      [|reflexivity].
    apply cardBgKey_injective in E. lia.
  - rewrite applyUpload_cardBgKey. cbn [Config.cards Config.set_cards].
    rewrite setBgAt_nth_error, Nat.eqb_refl.
    unfold removeCard. cbn [local Config.cards Config.set_cards].
    rewrite filterOutIndex_spec, nth_error_removed by lia.
    reflexivity.
Qed.

Lemma removeCard_keeps_later_keys_witness :
  let st := mkPageState defaultConfig
              [(cardBgKey 2, "data:image/png;base64,iVBORw0KGgo="%string)] in
  let filename := "card_bg_2_1771.png"%string in
  let st' := removeCard 0 st in
  objGet (cardBgKey 2) (pendingImages st')
  = objGet (cardBgKey 2) (pendingImages st) /\
  nth_error (Config.cards (applyUpload (cardBgKey 2) filename (local st'))) 2
  = option_map (withBg ("/uploads/" ++ filename)%string)
               (nth_error (Config.cards (local st)) (S 2)).
Proof.
  apply (removeCard_keeps_later_keys 0 2
           "card_bg_2_1771.png"%string
           (mkPageState defaultConfig
              [(cardBgKey 2, "data:image/png;base64,iVBORw0KGgo="%string)])).
  lia.
Defined.

(** A save of the default configuration with one picked image, the clock
    reading 1771 when the file is named. *)
Example saveConfig_one_image :
  let saved := saveConfig flatDisk (fun _ => 1771%nat)
                 [(cardBgKey 1, "data:image/jpeg;base64,/9j/4AAQ"%string)]
                 defaultConfig in
  statusCode saved = 200 /\
  uploaded saved = [("card_bg_1_1771.jpg", "/9j/4AAQ")]%string /\
  option_map (fun c => map bg (Config.cards c)) (configJson saved) =
  Some (map bg (setBgAt 1 "/uploads/card_bg_1_1771.jpg" defaultCards)).
Proof. vm_compute. repeat split. Qed.

(** A data URL whose subtype has a [/] in it matches, and the name made
    from it is a path into a directory that does not exist: the write
    throws, the answer is 500, [config.json] is not written, and the image
    written before it stays. *)
Example saveConfig_write_throws :
  let saved := saveConfig flatDisk (fun _ => 1771%nat)
                 [("logoImg", "data:image/png;base64,iVBORw0KGgo=");
                  (cardBgKey 0, "data:image/a/b;base64,AAAA")]%string
                 defaultConfig in
  matchDataUrl "data:image/a/b;base64,AAAA" = Some ("a/b", "AAAA")%string /\
  statusCode saved = 500 /\ configJson saved = None /\
  uploaded saved = [("logoImg_1771.png", "iVBORw0KGgo=")]%string.
Proof. vm_compute. repeat split. Qed.

(** * The handlers on doubles *)

(** ** Comparisons of doubles *)

Lemma SFcompare_antisym (x y : spec_float) :
  SFcompare y x = option_map CompOpp (SFcompare x y).
Proof.
  destruct x as [sx|sx| |sx mx ex], y as [sy|sy| |sy my ey]; cbn;
    try reflexivity;
    try (destruct sx; reflexivity); try (destruct sy; reflexivity);
    try (destruct sx, sy; reflexivity).
  destruct sx, sy; cbn; try reflexivity.
  - rewrite (Z.compare_antisym ex ey).
    destruct (ex ?= ey); cbn; try reflexivity.
    change (PosDef.Pos.compare_cont Eq my mx)
      with (Pos.compare_cont (CompOpp Eq) my mx).
    rewrite <- Pos.compare_cont_antisym. reflexivity.
  - rewrite (Z.compare_antisym ex ey).
    destruct (ex ?= ey); cbn; try reflexivity.
    change (PosDef.Pos.compare_cont Eq my mx)
      with (Pos.compare_cont (CompOpp Eq) my mx).
    rewrite <- Pos.compare_cont_antisym. reflexivity.
Qed.

(** [x > y] excludes [x < y]. *)
Lemma gt_not_lt (x y : float) : F64.gt x y = true -> F64.lt x y = false.
Proof.
  unfold F64.gt, F64.lt. rewrite !ltb_spec. unfold SFltb.
  rewrite (SFcompare_antisym (Prim2SF y) (Prim2SF x)).
  destruct (SFcompare (Prim2SF y) (Prim2SF x)) as [[| |]|]; cbn; congruence.
Qed.

(** [x <= y] excludes [x > y]. *)
Lemma le_not_gt (x y : float) : F64.le x y = true -> F64.gt x y = false.
Proof.
  unfold F64.gt, F64.le. rewrite ltb_spec, leb_spec. unfold SFltb, SFleb.
  rewrite (SFcompare_antisym (Prim2SF x) (Prim2SF y)).
  destruct (SFcompare (Prim2SF x) (Prim2SF y)) as [[| |]|]; cbn; congruence.
Qed.

(** ** Index arithmetic on doubles *)

Lemma wrap_mod_f64 (N x : Z) : 0 < N -> F64.wrap N x = F64.At (x mod N).
Proof.
  intros HN. unfold F64.wrap.
  destruct (Z.eqb_spec N 0) as [E | _]; [lia|].
  f_equal. exact (wrap_mod N x HN).
Qed.


(** [nearestDouble] against the sum of two doubles, at sums that are
    doubles, that fall half way between two doubles, and that overflow. *)
Example nearestDouble_is_the_sum :
  Forall (fun pk : Z * Z =>
            F64.nearestDouble (fst pk + snd pk)
            = F64.toInteger (F64.ofInteger (fst pk) + F64.ofInteger (snd pk)))
         [(3, 40); (3, - 2 ^ 53); (1, 2 ^ 53); (3, 2 ^ 53); (1, 2 ^ 53 + 2);
          (2, 2 ^ 54); (6, 2 ^ 54); (5, 2 ^ 54); (3, 2 ^ 54 + 4);
          (1000, - 2 ^ 60); (13, 2 ^ 55); (1000, 2 ^ 1023);
          (2 ^ 969, 2 ^ 1024 - 2 ^ 971); (2 ^ 970, 2 ^ 1024 - 2 ^ 971)].
Proof. repeat constructor. Qed.

Lemma sameIndex_refl (a : F64.Index) : F64.sameIndex a a = true.
Proof. destruct a; cbn; [apply Z.eqb_refl | reflexivity]. Qed.

(** ** State projections through the effects, on doubles *)

Lemma activeIndex_commit_f64 (old s : F64.Carousel) :
  F64.activeIndex (F64.commit old s) = F64.activeIndex s.
Proof.
  unfold F64.commit.
  destruct (F64.sameIndex (F64.activeIndex s) (F64.activeIndex old));
    reflexivity.
Qed.

Lemma dragXRef_commit_f64 (old s : F64.Carousel) :
  F64.dragXRef (F64.commit old s) = F64.dragX (F64.commit old s).
Proof.
  unfold F64.commit.
  destruct (F64.sameIndex (F64.activeIndex s) (F64.activeIndex old));
    reflexivity.
Qed.

Lemma commit_same_index_f64 (old s : F64.Carousel) :
  F64.activeIndex s = F64.activeIndex old ->
  F64.commit old s = F64.set_dragXRef (F64.dragX s) s.
Proof.
  intros H. unfold F64.commit. rewrite H, sameIndex_refl. reflexivity.
Qed.

Lemma dragX_commit_zero_f64 (old s : F64.Carousel) :
  F64.dragX s = 0%float -> F64.dragX (F64.commit old s) = 0%float.
Proof.
  intros H. unfold F64.commit.
  destruct (F64.sameIndex (F64.activeIndex s) (F64.activeIndex old));
    [exact H | reflexivity].
Qed.

Lemma rafId_commit_none_f64 (old s : F64.Carousel) :
  F64.rafId s = None -> F64.rafId (F64.commit old s) = None.
Proof.
  intros H. unfold F64.commit.
  destruct (F64.sameIndex (F64.activeIndex s) (F64.activeIndex old));
    [exact H | reflexivity].
Qed.

Lemma dragging_commit_f64 (old s : F64.Carousel) :
  F64.dragging (F64.commit old s) = F64.dragging s.
Proof.
  unfold F64.commit.
  destruct (F64.sameIndex (F64.activeIndex s) (F64.activeIndex old));
    reflexivity.
Qed.

Ltac handler_cases_f64 :=
  repeat match goal with
         | |- context [if ?c then _ else _] => destruct c eqn:?
         | |- context [match F64.rafId ?s with _ => _ end] =>
             destruct (F64.rafId s) as [[? ?]|] eqn:?
         | |- context [match F64.activeIndex ?s with _ => _ end] =>
             destruct (F64.activeIndex s) eqn:?
         end;
  cbn [F64.activeIndex F64.dragX F64.dragXRef F64.dragging F64.captured
       F64.startX F64.lastX F64.lastTime F64.velocity F64.rafId
       F64.set_activeIndex F64.setDragX F64.set_dragXRef F64.set_dragging
       F64.set_captured F64.set_startX F64.set_lastX F64.set_lastTime
       F64.set_velocity F64.set_rafId F64.cancelMomentum F64.startMomentum]
    in *.

(** ** Invariants of the reachable states, on doubles *)

Lemma step_settled_f64 (side : float) (N : Z) (s : F64.Carousel)
  (ev : F64.Event) :
  F64.settled s -> F64.settled (F64.step side N s ev).
Proof.
  intros [_ Hidle]. split.
  - apply dragXRef_commit_f64.
  - unfold F64.step, F64.commit.
    destruct ev; simpl;
      unfold F64.handlePointerDown, F64.handlePointerMove,
             F64.handlePointerUp, F64.animationFrame, F64.tick,
             F64.next, F64.prev;
      handler_cases_f64; intros Hd; auto; try discriminate;
      specialize (Hidle Hd); discriminate.
Qed.

Lemma run_settled_f64 (side : float) (N : Z) (evs : list F64.Event) :
  forall s, F64.settled s -> F64.settled (F64.run side N s evs).
Proof.
  induction evs as [|ev evs IH]; intros s Hs; simpl.
  - exact Hs.
  - apply IH. now apply step_settled_f64.
Qed.

Lemma reachable_settled_f64 (items : list CardItem) (bp : Breakpoint)
  (s : F64.Carousel) : F64.reachable items bp s -> F64.settled s.
Proof.
  intros [evs [_ ->]]. apply run_settled_f64.
  split; [reflexivity | discriminate].
Qed.

(** ** The range of the index, on doubles *)

(** From an index in [0,N) every event gives an index in [0,N), whatever
    the rounding of the pixels, but for one case: a momentum frame that
    stops the loop with an offset so large that the rounded number of
    steps, or its sum with the index, is an infinity. The index is NaN
    then. *)
Lemma step_index_f64 (side : float) (N : Z) (s : F64.Carousel)
  (ev : F64.Event) (a : Z) :
  1 <= N -> F64.activeIndex s = F64.At a -> 0 <= a < N ->
  match ev with F64.Paginate i => Z.of_nat i < N | _ => True end ->
  let s' := F64.step side N s ev in
  (exists a', F64.activeIndex s' = F64.At a' /\ 0 <= a' < N) \/
  (F64.activeIndex s' = F64.NaN /\
   exists v o, ev = F64.AnimationFrame /\ F64.rafId s = Some (v, o) /\
     let steps := F64.Math_round (- (o + v * F64.friction) / side)%float in
     steps = None \/
     exists n, steps = Some n /\ F64.nearestDouble (a + n) = None).
Proof.
  intros HN Ha Hrange Hev. cbv zeta.
  unfold F64.step. rewrite activeIndex_commit_f64.
  assert (Hmove : forall d,
             exists a', F64.moveBy N d (F64.At a) = F64.At a' /\ 0 <= a' < N).
  { intros d. cbn [F64.moveBy]. rewrite wrap_mod_f64 by lia.
    eexists. split; [reflexivity|]. apply Z.mod_pos_bound. lia. }
  assert (Hsame : exists a', F64.At a = F64.At a' /\ 0 <= a' < N)
    by (exists a; split; [reflexivity | exact Hrange]).
  assert (HN0 : (N =? 0) = false) by (apply Z.eqb_neq; lia).
  destruct ev as [e|e|e| | | |i]; cbn [F64.handle].
  - left. unfold F64.handlePointerDown.
    destruct (F64.onControl e); [rewrite Ha; exact Hsame|].
    destruct (negb (F64.button e =? 0)); cbn; rewrite Ha; exact Hsame.
  - left. unfold F64.handlePointerMove.
    destruct (negb (F64.dragging s)); [rewrite Ha; exact Hsame|].
    destruct (negb (F64.captured s)
              && F64.gt (F64.Math_abs (F64.clientX e - F64.startX s)) 5);
      cbn [F64.captured F64.set_captured].
    + cbn [negb].
      destruct (F64.gt (F64.now e - F64.lastTime (F64.set_captured true s)) 0);
        cbn; rewrite Ha; exact Hsame.
    + destruct (negb (F64.captured s)); [rewrite Ha; exact Hsame|].
      destruct (F64.gt (F64.now e - F64.lastTime s) 0);
        cbn; rewrite Ha; exact Hsame.
  - left. unfold F64.handlePointerUp.
    destruct (negb (F64.dragging s)); [rewrite Ha; exact Hsame|].
    cbn [F64.captured F64.set_dragging F64.velocity F64.startX].
    destruct (negb (F64.captured s)); [cbn; rewrite Ha; exact Hsame|].
    destruct (F64.gt (F64.Math_abs (F64.velocity s)) 2);
      [cbn; rewrite Ha; exact Hsame|].
    destruct (F64.gt (F64.Math_abs (F64.clientX e - F64.startX s))
                     (side * 0.25)); cbn; rewrite Ha;
      [apply Hmove | exact Hsame].
  - unfold F64.animationFrame.
    destruct (F64.rafId s) as [[v o]|] eqn:Hr; [|left; rewrite Ha; exact Hsame].
    unfold F64.tick.
    destruct (F64.gt (F64.Math_abs (o + v * F64.friction)) (side * 0.35)).
    + destruct (F64.Math_round (- (o + v * F64.friction) / side))
        as [n|] eqn:Hn; cbn [F64.nonZero].
      * destruct (negb (n =? 0)); cbn; rewrite Ha; [|left; exact Hsame].
        cbn [F64.snapBy].
        destruct (F64.nearestDouble (a + n)) as [next|] eqn:Hnd.
        -- left. rewrite wrap_mod_f64 by lia.
           eexists. split; [reflexivity|]. apply Z.mod_pos_bound. lia.
        -- right. split; [reflexivity|].
           exists v, o. split; [reflexivity|]. split; [reflexivity|].
           right. exists n. split; [exact Hn | exact Hnd].
      * cbn. rewrite Ha. right. split; [reflexivity|].
        exists v, o. split; [reflexivity|]. split; [reflexivity|].
        left. exact Hn.
    + left.
      destruct (F64.lt (F64.Math_abs (v * F64.friction)) 0.4);
        [|cbn; rewrite Ha; exact Hsame].
      destruct (F64.gt (F64.Math_abs (o + v * F64.friction)) (side * 0.25));
        cbn; rewrite Ha; [apply Hmove | exact Hsame].
  - left. unfold F64.next. cbn. rewrite Ha, HN0.
    eexists. split; [reflexivity|].
    rewrite next_mod by lia. apply Z.mod_pos_bound. lia.
  - left. unfold F64.prev. cbn. rewrite Ha, HN0.
    eexists. split; [reflexivity|].
    rewrite prev_mod by lia. apply Z.mod_pos_bound. lia.
  - left. cbn. eexists. split; [reflexivity|]. lia.
Qed.

(** ** Release at low speed *)

(** What [handlePointerUp] does to a captured drag whose velocity is not
    above 2 in magnitude. *)
Lemma handlePointerUp_slow_f64 (side : float) (N : Z) (e : F64.PointerEvent)
  (s : F64.Carousel) :
  F64.dragging s = true -> F64.captured s = true ->
  F64.gt (F64.Math_abs (F64.velocity s)) 2 = false ->
  let totalDX := (F64.clientX e - F64.startX s)%float in
  let s' := F64.handlePointerUp side N e s in
  F64.activeIndex s' =
    (if F64.gt (F64.Math_abs totalDX) (side * 0.25)%float
     then F64.moveBy N (if F64.lt totalDX 0 then 1 else -1) (F64.activeIndex s)
     else F64.activeIndex s) /\
  F64.dragX s' = 0%float /\ F64.rafId s' = F64.rafId s /\
  F64.dragging s' = false.
Proof.
  intros Hd Hc Hv. cbv zeta.
  unfold F64.handlePointerUp.
  rewrite Hd. cbn [negb F64.set_dragging F64.captured F64.velocity F64.startX].
  rewrite Hc. cbn [negb]. rewrite Hv.
  destruct (F64.gt (F64.Math_abs (F64.clientX e - F64.startX s))
                   (side * 0.25)); cbn; repeat split; reflexivity.
Qed.

(** C4: for every captured drag released with |velocity| <= 2, the
    displacement being the double [e.clientX - startX.current] the handler
    computes: when its magnitude exceeds 25% of [sideOffset] the index
    moves by one, forward for a displacement to the left and backward for
    one to the right, modulo N; otherwise the index is unchanged; in both
    cases the drag offset is 0 and no coasting is scheduled. *)
Theorem C4_slow_release
  (items : list CardItem) (bp : Breakpoint) (s : F64.Carousel)
  (e : F64.PointerEvent) (a : Z) :
  F64.reachable items bp s ->
  F64.dragging s = true -> F64.captured s = true ->
  F64.activeIndex s = F64.At a ->
  F64.le (F64.Math_abs (F64.velocity s)) 2 = true ->
  let side := F64.sideOffset bp in
  let N := itemCount items in
  let totalDX := (F64.clientX e - F64.startX s)%float in
  let s' := F64.carouselStep items bp s (F64.PointerUp e) in
  (F64.gt (F64.Math_abs totalDX) (side * 0.25)%float = true ->
   F64.lt totalDX 0 = true ->
     F64.activeIndex s' = F64.At ((a + 1) mod N)) /\
  (F64.gt (F64.Math_abs totalDX) (side * 0.25)%float = true ->
   F64.gt totalDX 0 = true ->
     F64.activeIndex s' = F64.At ((a - 1) mod N)) /\
  (F64.gt (F64.Math_abs totalDX) (side * 0.25)%float = false ->
     F64.activeIndex s' = F64.At a) /\
  F64.dragX s' = 0%float /\ F64.rafId s' = None /\ F64.dragging s' = false.
Proof.
  intros Hreach Hd Hc Ha Hv. cbv zeta.
  apply le_not_gt in Hv.
  pose proof (reachable_settled_f64 _ _ _ Hreach) as [_ Hidle].
  pose proof (itemCount_pos items) as HN.
  destruct (handlePointerUp_slow_f64 (F64.sideOffset bp) (itemCount items)
              e s Hd Hc Hv) as (Hi & Hx & Hr & Hg).
  unfold F64.carouselStep, F64.step. cbn [F64.handle].
  rewrite activeIndex_commit_f64, dragging_commit_f64, Hi, Ha.
  repeat split.
  - intros Hbig Hneg. rewrite Hbig, Hneg. cbn [F64.moveBy].
    apply wrap_mod_f64. lia.
  - intros Hbig Hpos. rewrite Hbig, (gt_not_lt _ _ Hpos). cbn [F64.moveBy].
    rewrite wrap_mod_f64 by lia. reflexivity.
  - intros Hsmall. rewrite Hsmall. reflexivity.
  - apply dragX_commit_zero_f64. exact Hx.
  - apply rafId_commit_none_f64. rewrite Hr. apply Hidle. exact Hd.
  - exact Hg.
Qed.

Lemma C4_slow_release_witness :
  let s := F64.carouselRun defaultCards desktop F64.initial
             [F64.PointerDown (F64.pointerAt 0.2 0);
              F64.PointerMove (F64.pointerAt 85.3 1000)] in
  let e := F64.pointerAt 85.3 1001 in
  let side := F64.sideOffset desktop in
  let N := itemCount defaultCards in
  let totalDX := (F64.clientX e - F64.startX s)%float in
  let s' := F64.carouselStep defaultCards desktop s (F64.PointerUp e) in
  (F64.gt (F64.Math_abs totalDX) (side * 0.25)%float = true ->
   F64.lt totalDX 0 = true ->
     F64.activeIndex s' = F64.At ((0 + 1) mod N)) /\
  (F64.gt (F64.Math_abs totalDX) (side * 0.25)%float = true ->
   F64.gt totalDX 0 = true ->
     F64.activeIndex s' = F64.At ((0 - 1) mod N)) /\
  (F64.gt (F64.Math_abs totalDX) (side * 0.25)%float = false ->
     F64.activeIndex s' = F64.At 0) /\
  F64.dragX s' = 0%float /\ F64.rafId s' = None /\ F64.dragging s' = false.
Proof.
  apply (C4_slow_release defaultCards desktop
           (F64.carouselRun defaultCards desktop F64.initial
              [F64.PointerDown (F64.pointerAt 0.2 0);
               F64.PointerMove (F64.pointerAt 85.3 1000)])
           (F64.pointerAt 85.3 1001) 0).
  - exists [F64.PointerDown (F64.pointerAt 0.2 0);
            F64.PointerMove (F64.pointerAt 85.3 1000)].
    split; [repeat constructor | reflexivity].
  - reflexivity.
  - reflexivity.
  - reflexivity.
  - vm_compute. reflexivity.
Defined.

(** The two releases of the spec's test, 30% and 10% of [sideOffset], and
    two releases on either side of the 25%: from 0.2 to 85.2 the
    displacement is the double 85, which is not above 25% of 340, and the
    index stays; one tenth of a pixel further it moves. *)
Example slow_release_f64 :
  let release (x0 x1 : float) :=
    F64.activeIndex
      (F64.carouselRun defaultCards desktop F64.initial
         (F64.gesture (F64.pointerAt x0 0) [F64.pointerAt x1 1000]
                      (F64.pointerAt x1 1001))) in
  release 0%float (-102)%float = F64.At 1 /\
  release 0%float (-34)%float = F64.At 0 /\
  release 0.2%float 85.2%float = F64.At 0 /\
  release 0.2%float 85.3%float = F64.At 3.
Proof. vm_compute. repeat split. Qed.

(** ** Dragging *)


Lemma step_down_f64 (side : float) (N : Z) (s : F64.Carousel)
  (down : F64.PointerEvent) :
  F64.startsDrag down ->
  let s' := F64.step side N s (F64.PointerDown down) in
  F64.dragging s' = true /\ F64.captured s' = false /\
  F64.startX s' = F64.clientX down /\
  F64.activeIndex s' = F64.activeIndex s /\ F64.rafId s' = None.
Proof.
  intros [Hc Hb]. cbv zeta. unfold F64.step. cbn [F64.handle].
  unfold F64.handlePointerDown.
  rewrite Hc, Hb. cbn [Z.eqb negb].
  rewrite commit_same_index_f64 by reflexivity.
  repeat split.
Qed.

Lemma step_move_dragging_f64 (side : float) (N : Z) (s : F64.Carousel)
  (x0 : float) (a : F64.Index) (m : F64.PointerEvent) :
  F64.dragging s = true -> F64.startX s = x0 -> F64.activeIndex s = a ->
  let s' := F64.step side N s (F64.PointerMove m) in
  F64.dragging s' = true /\ F64.startX s' = x0 /\ F64.activeIndex s' = a /\
  (F64.captured s = false ->
   F64.gt (F64.Math_abs (F64.clientX m - x0)) 5 = false ->
   F64.captured s' = false /\ F64.dragX s' = F64.dragX s) /\
  ((F64.captured s = true \/
    F64.gt (F64.Math_abs (F64.clientX m - x0)) 5 = true) ->
   F64.captured s' = true /\ F64.dragX s' = (F64.clientX m - x0)%float).
Proof.
  intros Hd Hx Ha. cbv zeta. unfold F64.step. cbn [F64.handle].
  unfold F64.handlePointerMove. rewrite Hd, Hx. cbn [negb].
  destruct (F64.captured s) eqn:Hc; cbn [negb andb].
  - rewrite Hc. cbn [negb].
    rewrite commit_same_index_f64
      by (destruct (F64.gt (F64.now m - F64.lastTime s) 0); reflexivity).
    destruct (F64.gt (F64.now m - F64.lastTime s) 0); cbn;
      repeat split; auto; discriminate.
  - destruct (F64.gt (F64.Math_abs (F64.clientX m - x0)) 5) eqn:Hg.
    + cbn [F64.captured F64.set_captured negb].
      rewrite commit_same_index_f64
        by (destruct (F64.gt (F64.now m
                              - F64.lastTime (F64.set_captured true s)) 0);
            reflexivity).
      destruct (F64.gt (F64.now m - F64.lastTime (F64.set_captured true s)) 0);
        cbn; repeat split; auto; discriminate.
    + rewrite Hc. cbn [negb].
      rewrite commit_same_index_f64 by reflexivity.
      cbn [F64.set_dragXRef F64.dragging F64.startX F64.activeIndex
           F64.captured F64.dragX].
      split; [exact Hd|]. split; [exact Hx|]. split; [exact Ha|].
      split; [intros _ _; split; [exact Hc | reflexivity]|].
      intros [Hf | Hf]; discriminate Hf.
Qed.

Lemma run_moves_dragging_f64 (side : float) (N : Z) (x0 : float)
  (a : F64.Index) (moves : list F64.PointerEvent) :
  forall s,
    F64.dragging s = true -> F64.startX s = x0 -> F64.activeIndex s = a ->
    let s' := F64.run side N s (map F64.PointerMove moves) in
    F64.dragging s' = true /\ F64.startX s' = x0 /\ F64.activeIndex s' = a /\
    (F64.captured s = true -> F64.captured s' = true).
Proof.
  induction moves as [|m moves IH]; intros s Hd Hx Ha; cbv zeta.
  - repeat split; auto.
  - cbn [map F64.run fold_left].
    destruct (step_move_dragging_f64 side N s x0 a m Hd Hx Ha)
      as (Hd1 & Hx1 & Ha1 & _ & Hc1).
    destruct (IH _ Hd1 Hx1 Ha1) as (Hd2 & Hx2 & Ha2 & Hc2).
    repeat split; auto.
    intros Hc. apply Hc2. apply Hc1. left. exact Hc.
Qed.

Lemma run_moves_following_f64 (side : float) (N : Z) (x0 : float)
  (a : F64.Index) (post : list F64.PointerEvent) :
  forall s m,
    F64.dragging s = true -> F64.startX s = x0 -> F64.activeIndex s = a ->
    F64.captured s = true -> F64.dragX s = (F64.clientX m - x0)%float ->
    let s' := F64.run side N s (map F64.PointerMove post) in
    F64.dragging s' = true /\ F64.captured s' = true /\
    F64.activeIndex s' = a /\
    F64.dragX s' = (F64.clientX (last post m) - x0)%float.
Proof.
  induction post as [|p post IH]; intros s m Hd Hx Ha Hc Hdx; cbv zeta.
  - repeat split; auto.
  - cbn [map].
    change (F64.run side N s (F64.PointerMove p :: map F64.PointerMove post))
      with (F64.run side N (F64.step side N s (F64.PointerMove p))
                    (map F64.PointerMove post)).
    destruct (step_move_dragging_f64 side N s x0 a p Hd Hx Ha)
      as (Hd1 & Hx1 & Ha1 & _ & Hc1).
    destruct (Hc1 (or_introl Hc)) as [Hc1' Hdx1].
    destruct (IH _ p Hd1 Hx1 Ha1 Hc1' Hdx1) as (Hd2 & Hc2 & Ha2 & Hdx2).
    repeat split; auto.
    rewrite Hdx2. rewrite last_cons_default. reflexivity.
Qed.

(** The moves before the first one that passes the test of the dead zone
    leave the drag uncaptured and the drag offset as it was. *)
Lemma run_moves_inside_f64 (side : float) (N : Z) (x0 : float)
  (a : F64.Index) (pre : list F64.PointerEvent) :
  Forall (fun m => F64.gt (F64.Math_abs (F64.clientX m - x0)) 5 = false) pre ->
  forall s,
    F64.dragging s = true -> F64.startX s = x0 -> F64.activeIndex s = a ->
    F64.captured s = false ->
    let s' := F64.run side N s (map F64.PointerMove pre) in
    F64.dragging s' = true /\ F64.startX s' = x0 /\ F64.activeIndex s' = a /\
    F64.captured s' = false /\ F64.dragX s' = F64.dragX s.
Proof.
  intros Hall. induction Hall as [|m pre Hm _ IH]; intros s Hd Hx Ha Hc;
    cbv zeta.
  - repeat split; auto.
  - cbn [map F64.run fold_left].
    destruct (step_move_dragging_f64 side N s x0 a m Hd Hx Ha)
      as (Hd1 & Hx1 & Ha1 & Hin & _).
    destruct (Hin Hc Hm) as [Hc1 Hdx1].
    destruct (IH _ Hd1 Hx1 Ha1 Hc1) as (Hd2 & Hx2 & Ha2 & Hc2 & Hdx2).
    repeat split; auto. unfold F64.run in Hdx2. rewrite Hdx2. exact Hdx1.
Qed.

(** The drag offset follows the pointer once the drag is captured, and
    not before. The displacement of a move is the double
    [e.clientX - startX.current]. Once the displacement of one move has
    been above 5 in magnitude, the drag offset after every later move is
    that move's displacement, also when the pointer has come back inside
    the 5 pixels; while no displacement has been above 5 the drag is not
    captured and the drag offset stays what it was at the pointer-down;
    the active index does not change while the pointer moves. *)
Theorem drag_follows_pointer
  (items : list CardItem) (bp : Breakpoint) (s : F64.Carousel)
  (down : F64.PointerEvent) (pre : list F64.PointerEvent)
  (m : F64.PointerEvent) (post : list F64.PointerEvent) :
  F64.startsDrag down ->
  F64.gt (F64.Math_abs (F64.displacement down m)) 5 = true ->
  let s' := F64.carouselRun items bp s
              (F64.PointerDown down
                 :: map F64.PointerMove (pre ++ m :: post)) in
  let s0 := F64.carouselRun items bp s
              (F64.PointerDown down :: map F64.PointerMove pre) in
  F64.dragging s' = true /\ F64.captured s' = true /\
  F64.dragX s' = F64.displacement down (last post m) /\
  F64.activeIndex s' = F64.activeIndex s /\
  (Forall (fun p => F64.gt (F64.Math_abs (F64.displacement down p)) 5 = false)
          pre ->
   F64.captured s0 = false /\ F64.dragX s0 = F64.dragX s).
Proof.
  intros Hdown Hm. cbv zeta.
  unfold F64.carouselRun, F64.run, F64.displacement in *.
  set (side := F64.sideOffset bp).
  set (N := itemCount items).
  cbn [fold_left]. rewrite map_app, fold_left_app. cbn [map fold_left].
  destruct (step_down_f64 side N s down Hdown)
    as (Hd0 & Hc0 & Hx0 & Ha0 & _).
  destruct (run_moves_dragging_f64 side N (F64.clientX down)
              (F64.activeIndex s) pre _ Hd0 Hx0 Ha0) as (Hd1 & Hx1 & Ha1 & _).
  unfold F64.run in Hd1, Hx1, Ha1.
  destruct (step_move_dragging_f64 side N _ (F64.clientX down)
              (F64.activeIndex s) m Hd1 Hx1 Ha1) as (Hd2 & Hx2 & Ha2 & _ & Hc2).
  destruct (Hc2 (or_intror Hm)) as [Hc2' Hdx2].
  destruct (run_moves_following_f64 side N (F64.clientX down)
              (F64.activeIndex s) post _ m Hd2 Hx2 Ha2 Hc2' Hdx2)
    as (Hd3 & Hc3 & Ha3 & Hdx3).
  unfold F64.run in Hd3, Hc3, Ha3, Hdx3.
  repeat split; try assumption.
  - destruct (run_moves_inside_f64 side N (F64.clientX down)
                (F64.activeIndex s) pre H _ Hd0 Hx0 Ha0 Hc0)
      as (_ & _ & _ & Hc & _). exact Hc.
  - destruct (run_moves_inside_f64 side N (F64.clientX down)
                (F64.activeIndex s) pre H _ Hd0 Hx0 Ha0 Hc0)
      as (_ & _ & _ & _ & Hx). unfold F64.run in Hx. rewrite Hx.
    unfold F64.step. cbn [F64.handle]. unfold F64.handlePointerDown.
    destruct Hdown as [Hc Hb]. rewrite Hc, Hb. cbn [Z.eqb negb].
    rewrite commit_same_index_f64 by reflexivity. reflexivity.
Qed.

Lemma drag_follows_pointer_witness :
  let down := F64.pointerAt 100.2 0 in
  let pre := [F64.pointerAt 103 16; F64.pointerAt 105.2 24] in
  let m := F64.pointerAt 140 32 in
  let post := [F64.pointerAt 160 48; F64.pointerAt 102 64] in
  let s' := F64.carouselRun defaultCards desktop F64.initial
              (F64.PointerDown down
                 :: map F64.PointerMove (pre ++ m :: post)) in
  let s0 := F64.carouselRun defaultCards desktop F64.initial
              (F64.PointerDown down :: map F64.PointerMove pre) in
  F64.dragging s' = true /\ F64.captured s' = true /\
  F64.dragX s' = F64.displacement down (last post m) /\
  F64.activeIndex s' = F64.activeIndex F64.initial /\
  (Forall (fun p => F64.gt (F64.Math_abs (F64.displacement down p)) 5 = false)
          pre ->
   F64.captured s0 = false /\ F64.dragX s0 = F64.dragX F64.initial).
Proof.
  apply (drag_follows_pointer defaultCards desktop F64.initial
           (F64.pointerAt 100.2 0)
           [F64.pointerAt 103 16; F64.pointerAt 105.2 24]
           (F64.pointerAt 140 32)
           [F64.pointerAt 160 48; F64.pointerAt 102 64]).
  - split; reflexivity.
  - vm_compute. reflexivity.
Defined.

(** From 0.2 to 5.2 the displacement is the double 5, which is not above
    5: the drag is not captured; from 0.2 to 5.3 it is. *)
Example deadzone_edge_f64 :
  let moved (x : float) :=
    F64.carouselRun defaultCards mobile F64.initial
      [F64.PointerDown (F64.pointerAt 0.2 0);
       F64.PointerMove (F64.pointerAt x 10)] in
  F64.captured (moved 5.2%float) = false /\
  F64.dragX (moved 5.2%float) = 0%float /\
  F64.captured (moved 5.3%float) = true /\
  F64.dragX (moved 5.3%float) = (5.3 - 0.2)%float.
Proof. vm_compute. repeat split. Qed.

(** ** One animation frame of the momentum loop, on doubles *)

Section FrameF64.

Variable side : float.
Variable N : Z.

(** The offset has passed 35% of [sideOffset]: the loop stops and the
    index moves by the rounded number of steps. *)
Lemma step_frame_snap_f64 (s : F64.Carousel) (v o : float) :
  F64.rafId s = Some (v, o) ->
  F64.gt (F64.Math_abs (o + v * F64.friction)) (side * 0.35)%float = true ->
  let steps := F64.Math_round (- (o + v * F64.friction) / side)%float in
  let s' := F64.step side N s F64.AnimationFrame in
  F64.rafId s' = None /\ F64.dragX s' = 0%float /\
  F64.activeIndex s' =
    (if F64.nonZero steps then F64.snapBy N steps (F64.activeIndex s)
     else F64.activeIndex s).
Proof.
  intros Hr Hbig. cbv zeta.
  unfold F64.step. cbn [F64.handle]. unfold F64.animationFrame. rewrite Hr.
  unfold F64.tick. rewrite Hbig.
  rewrite activeIndex_commit_f64.
  destruct (F64.nonZero
              (F64.Math_round (- (o + v * F64.friction) / side)%float));
    repeat split;
    try (apply rafId_commit_none_f64; reflexivity);
    try (apply dragX_commit_zero_f64; reflexivity).
Qed.


(** Neither: the loop goes on with the new velocity and offset. *)
Lemma step_frame_continue_f64 (s : F64.Carousel) (v o : float) :
  F64.rafId s = Some (v, o) ->
  F64.gt (F64.Math_abs (o + v * F64.friction)) (side * 0.35)%float = false ->
  F64.lt (F64.Math_abs (v * F64.friction)) 0.4 = false ->
  let s' := F64.step side N s F64.AnimationFrame in
  F64.rafId s' = Some ((v * F64.friction)%float, (o + v * F64.friction)%float)
  /\ F64.dragX s' = (o + v * F64.friction)%float /\
  F64.activeIndex s' = F64.activeIndex s.
Proof.
  intros Hr Hsmall Hfast. cbv zeta.
  unfold F64.step. cbn [F64.handle]. unfold F64.animationFrame. rewrite Hr.
  unfold F64.tick. rewrite Hsmall, Hfast.
  rewrite commit_same_index_f64 by reflexivity.
  repeat split.
Qed.


End FrameF64.

(** ** The coasting recurrence, on doubles *)





(** ** Coasting, on doubles *)

(** The release of the counterexample, on doubles: the first step takes
    the offset past 35% of [sideOffset], the rounded number of steps is 0,
    and the index stays. *)
Example snap_zero_steps_f64 :
  let s := F64.carouselRun defaultCards desktop F64.initial
             (F64.gesture (F64.pointerAt 0 0)
                [F64.pointerAt 70 100; F64.pointerAt 100 116]
                (F64.pointerAt 100 120)) in
  let s' := F64.carouselStep defaultCards desktop s F64.AnimationFrame in
  F64.rafId s = Some (30%float, 100%float) /\
  F64.Math_round (- (100 + 30 * F64.friction) / 340)%float = Some 0 /\
  F64.rafId s' = None /\ F64.dragX s' = 0%float /\
  F64.activeIndex s = F64.At 0 /\ F64.activeIndex s' = F64.At 0.
Proof. vm_compute. repeat split. Qed.



(** The two stops. After that release the loop coasts for one frame; at
    the second the offset is past 35% of [sideOffset], the steps round to
    1 and the index moves from 0 to 1. A loop that starts 90 pixels to the
    left with velocity -0.42 stops at its first frame, the velocity having
    died, and the index moves from 1 to 2, the offset being past 25% of
    [sideOffset]. *)
Example coasting_stops_f64 :
  let s := F64.carouselRun defaultCards desktop F64.initial
             (F64.gesture (F64.pointerAt 0 0)
                [F64.pointerAt (-26) 16; F64.pointerAt (-58) 24]
                (F64.pointerAt (-58) 25)) in
  let s' := F64.frames (F64.sideOffset desktop) 4 2 s in
  let t := F64.mkCarousel (F64.At 1) (-90) (-90) false true 0 (-90) 16 (-0.42)
             (Some ((-0.42)%float, (-90)%float)) in
  let t' := F64.frames (F64.sideOffset desktop) 4 1 t in
  F64.rafId s = Some ((-64)%float, (-58)%float) /\
  F64.Math_round (- F64.coastOffset (-64) (-58) 2 / 340)%float = Some 1 /\
  F64.activeIndex s' = F64.At 1 /\ F64.dragX s' = 0%float /\
  F64.rafId s' = None /\
  F64.activeIndex t' = F64.At 2 /\ F64.dragX t' = 0%float /\
  F64.rafId t' = None.
Proof. vm_compute. repeat split. Qed.

(** ** Release at high speed *)

(** C10: when a captured drag is released with |velocity| > 2, the loop is
    scheduled with its running offset equal to the current [dragX], the
    drag displacement, and [dragX] itself is not reset; a first step that
    takes the offset past 35% of [sideOffset], both computed in double
    arithmetic as [tick] does, stops the loop at once, and such a release
    exists for every item list and breakpoint. *)
Theorem C10_momentum_starts_at_dragX
  (items : list CardItem) (bp : Breakpoint) (s : F64.Carousel)
  (e : F64.PointerEvent) :
  F64.reachable items bp s ->
  F64.dragging s = true -> F64.captured s = true ->
  F64.gt (F64.Math_abs (F64.velocity s)) 2 = true ->
  let side := F64.sideOffset bp in
  let s' := F64.carouselStep items bp s (F64.PointerUp e) in
  F64.rafId s' = Some (F64.velocity s, F64.dragX s) /\
  F64.dragX s' = F64.dragX s /\ F64.activeIndex s' = F64.activeIndex s /\
  (F64.gt (F64.Math_abs (F64.dragX s + F64.velocity s * F64.friction))
          (side * 0.35)%float = true ->
     F64.rafId (F64.carouselStep items bp s' F64.AnimationFrame) = None /\
     F64.dragX (F64.carouselStep items bp s' F64.AnimationFrame) = 0%float) /\
  (F64.gt (F64.Math_abs (F64.dragX s + F64.velocity s * F64.friction))
          (side * 0.35)%float = false ->
   F64.lt (F64.Math_abs (F64.velocity s * F64.friction)) 0.4 = false ->
     F64.rafId (F64.carouselStep items bp s' F64.AnimationFrame)
     = Some ((F64.velocity s * F64.friction)%float,
             (F64.dragX s + F64.velocity s * F64.friction)%float)) /\
  (exists s0, F64.reachable items bp s0 /\
              F64.dragging s0 = true /\ F64.captured s0 = true /\
              F64.gt (F64.Math_abs (F64.velocity s0)) 2 = true /\
              F64.gt (F64.Math_abs
                        (F64.dragX s0 + F64.velocity s0 * F64.friction))
                     (side * 0.35)%float = true).
Proof.
  intros Hreach Hd Hc Hv. cbv zeta.
  pose proof (reachable_settled_f64 _ _ _ Hreach) as [Href _].
  assert (Hup : F64.carouselStep items bp s (F64.PointerUp e)
                = F64.set_dragXRef (F64.dragX s)
                    (F64.startMomentum (F64.velocity s)
                       (F64.set_dragging false s))).
  { unfold F64.carouselStep, F64.step. cbn [F64.handle].
    unfold F64.handlePointerUp.
    rewrite Hd. cbn [negb F64.set_dragging F64.captured F64.velocity].
    rewrite Hc. cbn [negb]. rewrite Hv.
    rewrite commit_same_index_f64 by reflexivity. reflexivity. }
  rewrite Hup.
  assert (Hraf : F64.rafId (F64.set_dragXRef (F64.dragX s)
                              (F64.startMomentum (F64.velocity s)
                                 (F64.set_dragging false s)))
                 = Some (F64.velocity s, F64.dragX s)).
  { cbn. rewrite Href. reflexivity. }
  split; [exact Hraf|]. split; [reflexivity|]. split; [reflexivity|].
  split; [|split].
  - intros Hbig. unfold F64.carouselStep.
    destruct (step_frame_snap_f64 (F64.sideOffset bp) (itemCount items)
                _ _ _ Hraf Hbig) as (H1 & H2 & _).
    split; assumption.
  - intros Hsmall Hfast. unfold F64.carouselStep.
    destruct (step_frame_continue_f64 (F64.sideOffset bp) (itemCount items)
                _ _ _ Hraf Hsmall Hfast) as (H1 & _).
    exact H1.
  - exists (F64.carouselRun items bp F64.initial
              [F64.PointerDown (F64.pointerAt 0 0);
               F64.PointerMove (F64.pointerAt 200 16)]).
    split.
    + exists [F64.PointerDown (F64.pointerAt 0 0);
              F64.PointerMove (F64.pointerAt 200 16)].
      split; [repeat constructor | reflexivity].
    + destruct bp; vm_compute; repeat split.
Qed.

Lemma C10_momentum_starts_at_dragX_witness :
  let s := F64.carouselRun defaultCards mobile F64.initial
             [F64.PointerDown (F64.pointerAt 0 0);
              F64.PointerMove (F64.pointerAt 7 1.488)] in
  let e := F64.pointerAt 7 2 in
  let side := F64.sideOffset mobile in
  let s' := F64.carouselStep defaultCards mobile s (F64.PointerUp e) in
  F64.rafId s' = Some (F64.velocity s, F64.dragX s) /\
  F64.dragX s' = F64.dragX s /\ F64.activeIndex s' = F64.activeIndex s /\
  (F64.gt (F64.Math_abs (F64.dragX s + F64.velocity s * F64.friction))
          (side * 0.35)%float = true ->
     F64.rafId (F64.carouselStep defaultCards mobile s' F64.AnimationFrame)
     = None /\
     F64.dragX (F64.carouselStep defaultCards mobile s' F64.AnimationFrame)
     = 0%float) /\
  (F64.gt (F64.Math_abs (F64.dragX s + F64.velocity s * F64.friction))
          (side * 0.35)%float = false ->
   F64.lt (F64.Math_abs (F64.velocity s * F64.friction)) 0.4 = false ->
     F64.rafId (F64.carouselStep defaultCards mobile s' F64.AnimationFrame)
     = Some ((F64.velocity s * F64.friction)%float,
             (F64.dragX s + F64.velocity s * F64.friction)%float)) /\
  (exists s0, F64.reachable defaultCards mobile s0 /\
              F64.dragging s0 = true /\ F64.captured s0 = true /\
              F64.gt (F64.Math_abs (F64.velocity s0)) 2 = true /\
              F64.gt (F64.Math_abs
                        (F64.dragX s0 + F64.velocity s0 * F64.friction))
                     (side * 0.35)%float = true).
Proof.
  apply (C10_momentum_starts_at_dragX defaultCards mobile
           (F64.carouselRun defaultCards mobile F64.initial
              [F64.PointerDown (F64.pointerAt 0 0);
               F64.PointerMove (F64.pointerAt 7 1.488)])
           (F64.pointerAt 7 2)).
  - exists [F64.PointerDown (F64.pointerAt 0 0);
            F64.PointerMove (F64.pointerAt 7 1.488)].
    split; [repeat constructor | reflexivity].
  - reflexivity.
  - reflexivity.
  - vm_compute. reflexivity.
Defined.

(** Two fast releases on the mobile layout, where 35% of [sideOffset] is
    77. Released 7 pixels from the start at 75.268817204301072 pixels per
    frame, the first step takes the offset to the double 77, which is not
    above 77: the loop goes on, and the second step moves the index from 0
    to 3. Released 200 pixels from the start, the first step stops the
    loop. *)
Example fast_release_first_frame_f64 :
  let release (x t : float) :=
    F64.carouselRun defaultCards mobile F64.initial
      (F64.gesture (F64.pointerAt 0 0) [F64.pointerAt x t]
                   (F64.pointerAt x (t + 1))) in
  let frame := fun s => F64.carouselStep defaultCards mobile s
                          F64.AnimationFrame in
  F64.rafId (release 7%float 1.488%float)
  = Some (75.268817204301072%float, 7%float) /\
  F64.rafId (frame (release 7%float 1.488%float))
  = Some (70%float, 77%float) /\
  F64.activeIndex (frame (release 7%float 1.488%float)) = F64.At 0 /\
  F64.rafId (frame (frame (release 7%float 1.488%float))) = None /\
  F64.activeIndex (frame (frame (release 7%float 1.488%float))) = F64.At 3 /\
  F64.rafId (frame (release 200%float 16%float)) = None /\
  F64.dragX (frame (release 200%float 16%float)) = 0%float.
Proof. vm_compute. repeat split. Qed.
